(** * pylm: the broker event loop and the push-pull (scatter) service

    A shallow embedding of

    - [Broker] of [tests/test_feedback.py] (routing, ledger, single-slot
      buffer, poller gating), and
    - [PushPullService] of [pylm_ng/components/services.py] (envelope
      translation and the scatter / feedback loop),

    together with the properties of both that the specification states.

    Python [bytes] and [str] values are modelled by [string] (a sequence of
    8-bit characters); dictionaries by [gmap]; the poller's registered
    sockets by a [gset]; Python exceptions by an error monad over the
    component's state, so that everything a method did before raising is
    still visible in the state it leaves behind. *)

From Stdlib Require Import ZArith NArith Ascii String List Lia.
From stdpp Require Import base tactics option list gmap strings pretty.

Open Scope string_scope.

Abbreviation bytes := string.

(** ** Exceptions and the state-and-error monad *)

Inductive exn :=
| KeyError        (* dict lookup or [Poller.unregister] of a missing key *)
| ValueError      (* tuple unpacking of the wrong number of frames *)
| DecodeError     (* protobuf [ParseFromString] on malformed bytes *)
| AttributeError  (* method call on [None] *)
| TypeError       (* [ParseFromString(None)] *)
| WouldBlock.     (* [recv] on a socket with nothing pending: the source
                     blocks there; never reached after a poll reported
                     the socket *)

Inductive outcome (A : Type) :=
| Return (a : A)
| Raise (e : exn).
Arguments Return {A} a.
Arguments Raise {A} e.

Definition M (S A : Type) : Type := S → outcome A * S.

Definition M_ret {S A} (a : A) : M S A := λ s, (Return a, s).

Definition M_bind {S A B} (m : M S A) (k : A → M S B) : M S B :=
  λ s, match m s with
       | (Return a, s') => k a s'
       | (Raise e, s') => (Raise e, s')
       end.

Definition raise {S A} (e : exn) : M S A := λ s, (Raise e, s).
Definition get {S} : M S S := λ s, (Return s, s).
Definition gets {S A} (f : S → A) : M S A := λ s, (Return (f s), s).
Definition modify {S} (f : S → S) : M S unit := λ s, (Return tt, f s).

Declare Scope py_scope.
Notation "x ← m ; k" := (M_bind m (λ x, k))
  (at level 20, m at level 100, k at level 200, only parsing) : py_scope.
Notation "' x ← m ; k" := (M_bind m (λ x, k))
  (at level 20, x pattern, m at level 100, k at level 200, only parsing) : py_scope.
Notation "m ;; k" := (M_bind m (λ _, k))
  (at level 100, k at level 200, only parsing, right associativity) : py_scope.
Open Scope py_scope.

(** [for x in xs: body x] *)
Fixpoint for_each {S A} (xs : list A) (body : A → M S unit) : M S unit :=
  match xs with
  | [] => M_ret tt
  | x :: xs' => body x;; for_each xs' body
  end.

(** [range(n)]: empty when [n] is not positive. *)
Definition range (n : Z) : list nat := seq 0 (Z.to_nat n).

(** ** Messages ([messages_pb2]) *)

Module BrokerMessage.
Record t := Build { key : string; payload : bytes }.
End BrokerMessage.

Module PalmMessage.
(** Modelled from the spec: [messages_pb2] is not among the sources; the
    client envelope is the record
    [{ client_id, pipeline_id, function, stage, payload: bytes,
       cache_key?, metadata? }]. *)
Record t := Build {
  client : string;
  pipeline : string;
  function : string;
  stage : Z;
  payload : bytes;
  cache_key : option string;
  metadata : option bytes
}.

(** [palm_message.payload = p] *)
Definition set_payload (p : bytes) (m : t) : t :=
  {| client := client m; pipeline := pipeline m; function := function m;
     stage := stage m; payload := p; cache_key := cache_key m;
     metadata := metadata m |}.
End PalmMessage.

(** The generated protobuf classes are used through two methods only.
    [ParseFromString] yields [None] where the Python method raises
    [DecodeError]. *)
Class Codec (A : Type) := {
  ParseFromString : bytes → option A;
  SerializeToString : A → bytes
}.

Definition parse {S A} `{Codec A} (data : bytes) : M S A :=
  match ParseFromString data with
  | Some m => M_ret m
  | None => raise DecodeError
  end.

(** [a, b, c = frames] *)
Definition unpack3 {S} (frames : list bytes) : M S (bytes * bytes * bytes) :=
  match frames with
  | [a; b; c] => M_ret (a, b, c)
  | _ => raise ValueError
  end.

(** [l.remove(x)]: drops the first occurrence of [x]. *)
Fixpoint list_remove_first (x : bytes) (l : list bytes) : list bytes :=
  match l with
  | [] => []
  | y :: l' => if decide (x = y) then l' else y :: list_remove_first x l'
  end.

Inductive Level := DEBUG | INFO | CRITICAL.

#[global] Instance Level_eq_dec : EqDecision Level.
Proof. solve_decision. Defined.

(** ** A wire format for the two message shapes

    Modelled from the spec: the generated module [messages_pb2] is not among
    the sources.  The spec asks for records of tagged fields with
    variable-length integers and length-delimited bytes; a Broker envelope
    has field 1 = [key] and field 2 = [payload].  The properties of the
    broker and of the service below are stated for every [Codec]; this
    instance serves to run them on concrete messages. *)

Module Wire.

Inductive field :=
| Varint (tag : N) (v : N)
| Delimited (tag : N) (b : bytes).

(** Base-128 integers, least significant group first, the high bit of a
    byte telling that another one follows. *)
Fixpoint put_varint_fuel (fuel : nat) (n : N) : bytes :=
  match fuel with
  | O => String (ascii_of_N (n mod 128)) ""
  | S fuel' =>
      if (n <? 128)%N then String (ascii_of_N n) ""
      else String (ascii_of_N (128 + n mod 128)) (put_varint_fuel fuel' (n / 128))
  end.

Definition put_varint (n : N) : bytes := put_varint_fuel (N.to_nat (N.log2 n)) n.

Fixpoint get_varint (shift acc : N) (s : bytes) : option (N * bytes) :=
  match s with
  | "" => None
  | String c rest =>
      let b := N_of_ascii c in
      if (b <? 128)%N then Some ((acc + N.shiftl b shift)%N, rest)
      else get_varint (shift + 7) (acc + N.shiftl (b - 128) shift) rest
  end.

Fixpoint take (n : nat) (s : bytes) : option (bytes * bytes) :=
  match n, s with
  | O, _ => Some ("", s)
  | S n', String c rest =>
      match take n' rest with
      | Some (a, b) => Some (String c a, b)
      | None => None
      end
  | S _, "" => None
  end.

Definition put_field (f : field) : bytes :=
  match f with
  | Varint tag v => put_varint (8 * tag) ++ put_varint v
  | Delimited tag b =>
      put_varint (8 * tag + 2) ++ put_varint (N.of_nat (String.length b)) ++ b
  end.

Definition put_fields (fs : list field) : bytes :=
  fold_right (λ f acc, put_field f ++ acc) "" fs.

Fixpoint get_fields (fuel : nat) (s : bytes) : option (list field) :=
  match s with
  | "" => Some []
  | _ =>
      match fuel with
      | O => None
      | S fuel' =>
          match get_varint 0 0 s with
          | None => None
          | Some (head, s1) =>
              let tag := (head / 8)%N in
              match (head mod 8)%N with
              | 0%N =>
                  match get_varint 0 0 s1 with
                  | Some (v, s2) =>
                      option_map (cons (Varint tag v)) (get_fields fuel' s2)
                  | None => None
                  end
              | 2%N =>
                  match get_varint 0 0 s1 with
                  | Some (len, s2) =>
                      match take (N.to_nat len) s2 with
                      | Some (b, s3) =>
                          option_map (cons (Delimited tag b)) (get_fields fuel' s3)
                      | None => None
                      end
                  | None => None
                  end
              | _ => None
              end
          end
      end
  end.

(** The last occurrence of a field wins. *)
Fixpoint find_delimited (tag : N) (fs : list field) : option bytes :=
  match fs with
  | [] => None
  | Delimited t b :: fs' =>
      match find_delimited tag fs' with
      | Some b' => Some b'
      | None => if (t =? tag)%N then Some b else None
      end
  | Varint _ _ :: fs' => find_delimited tag fs'
  end.

Fixpoint find_varint (tag : N) (fs : list field) : option N :=
  match fs with
  | [] => None
  | Varint t v :: fs' =>
      match find_varint tag fs' with
      | Some v' => Some v'
      | None => if (t =? tag)%N then Some v else None
      end
  | Delimited _ _ :: fs' => find_varint tag fs'
  end.

Definition optional_field (tag : N) (o : option bytes) : list field :=
  match o with
  | Some b => [Delimited tag b]
  | None => []
  end.

#[export] Instance broker_codec : Codec BrokerMessage.t := {|
  ParseFromString data :=
    match get_fields (String.length data) data with
    | Some fs =>
        match find_delimited 1 fs, find_delimited 2 fs with
        | Some k, Some p => Some (BrokerMessage.Build k p)
        | _, _ => None
        end
    | None => None
    end;
  SerializeToString m :=
    put_fields [Delimited 1 (BrokerMessage.key m);
                Delimited 2 (BrokerMessage.payload m)]
|}.

#[export] Instance palm_codec : Codec PalmMessage.t := {|
  ParseFromString data :=
    match get_fields (String.length data) data with
    | Some fs =>
        match find_delimited 1 fs, find_delimited 2 fs, find_varint 3 fs,
              find_delimited 4 fs, find_delimited 6 fs with
        | Some pl, Some cl, Some st, Some fn, Some pa =>
            Some (PalmMessage.Build cl pl fn (Z.of_N st) pa
                    (find_delimited 5 fs) (find_delimited 7 fs))
        | _, _, _, _, _ => None
        end
    | None => None
    end;
  SerializeToString m :=
    put_fields
      ([Delimited 1 (PalmMessage.pipeline m);
        Delimited 2 (PalmMessage.client m);
        Varint 3 (Z.to_N (PalmMessage.stage m));
        Delimited 4 (PalmMessage.function m)]
       ++ optional_field 5 (PalmMessage.cache_key m)
       ++ [Delimited 6 (PalmMessage.payload m)]
       ++ optional_field 7 (PalmMessage.metadata m))
|}.

End Wire.

(** ** The broker ([tests/test_feedback.py], class [Broker]) *)

Module Broker.

(** The two ROUTER sockets, [self.inbound] and [self.outbound]. *)
Inductive Socket := inbound | outbound.

#[global] Instance Socket_eq_dec : EqDecision Socket.
Proof. solve_decision. Defined.

#[global] Instance Socket_countable : Countable Socket.
Proof.
  refine (inj_countable'
            (λ s, match s with inbound => true | outbound => false end)
            (λ b : bool, if b then inbound else outbound) _).
  by intros [].
Defined.

(** An entry of [self.inbound_components]. *)
Record Registration := mkRegistration {
  route : bytes;
  block : bool;
  log : string
}.

(** What the broker does to the outside, in program order.  A log record
    keeps its level and its format string. *)
Inductive Action :=
| Polled (event : gset Socket)
| Log (level : Level) (msg : string)
| Recv (s : Socket) (frames : list bytes)
| Send (s : Socket) (frames : list bytes)
| Register (s : Socket)
| Unregister (s : Socket)
| Close (s : Socket).

(** The attributes of [self], the local variable [available_outbound] of
    [start], the sockets on which [close()] was called, and the actions
    performed so far.  [self.logger] is a logger, as in the test that
    drives the broker: with the default [None] the first log call of
    [start] would raise. *)
Record State := mkState {
  inbound_components : gmap bytes Registration;
  outbound_components : gmap bytes string;
  messages : Z;
  ledger : gmap string bytes;
  buffer : gmap bytes bytes;
  poller : gset Socket;
  available_outbound : list bytes;
  closed : gset Socket;
  trace : list Action
}.

Definition set_inbound_components
    (f : gmap bytes Registration → gmap bytes Registration)
    (st : State) : State :=
  mkState (f (inbound_components st)) (outbound_components st) (messages st)
    (ledger st) (buffer st) (poller st) (available_outbound st) (closed st)
    (trace st).

Definition set_outbound_components (f : gmap bytes string → gmap bytes string)
    (st : State) : State :=
  mkState (inbound_components st) (f (outbound_components st)) (messages st)
    (ledger st) (buffer st) (poller st) (available_outbound st) (closed st)
    (trace st).

Definition set_ledger (f : gmap string bytes → gmap string bytes)
    (st : State) : State :=
  mkState (inbound_components st) (outbound_components st) (messages st)
    (f (ledger st)) (buffer st) (poller st) (available_outbound st)
    (closed st) (trace st).

Definition set_buffer (f : gmap bytes bytes → gmap bytes bytes)
    (st : State) : State :=
  mkState (inbound_components st) (outbound_components st) (messages st)
    (ledger st) (f (buffer st)) (poller st) (available_outbound st)
    (closed st) (trace st).

Definition set_poller (f : gset Socket → gset Socket) (st : State) : State :=
  mkState (inbound_components st) (outbound_components st) (messages st)
    (ledger st) (buffer st) (f (poller st)) (available_outbound st)
    (closed st) (trace st).

Definition set_available_outbound (f : list bytes → list bytes)
    (st : State) : State :=
  mkState (inbound_components st) (outbound_components st) (messages st)
    (ledger st) (buffer st) (poller st) (f (available_outbound st))
    (closed st) (trace st).

Definition emit (a : Action) (st : State) : State :=
  mkState (inbound_components st) (outbound_components st) (messages st)
    (ledger st) (buffer st) (poller st) (available_outbound st) (closed st)
    (trace st ++ [a])%list.

Arguments set_inbound_components f !st /.
Arguments set_outbound_components f !st /.
Arguments set_ledger f !st /.
Arguments set_buffer f !st /.
Arguments set_poller f !st /.
Arguments set_available_outbound f !st /.
Arguments emit a !st /.

(** [Broker.__init__]: both sockets bound and open, empty tables, and only
    the outbound socket registered with the poller. *)
Definition __init__ (messages : Z) : State :=
  {| inbound_components := ∅;
     outbound_components := ∅;
     messages := messages;
     ledger := ∅;
     buffer := ∅;
     poller := {[ outbound ]};
     available_outbound := [];
     closed := ∅;
     trace := [] |}.

Definition register_inbound (name route : string) (block : bool) (log : string)
    (st : State) : State :=
  set_inbound_components (<[ name := mkRegistration route block log ]>) st.

Definition register_outbound (name : string) (log : string) (st : State) : State :=
  set_outbound_components (<[ name := log ]>) st.

(** *** Primitive effects *)

Definition logger (l : Level) (msg : string) : M State unit :=
  modify (emit (Log l msg)).

Definition send_multipart (s : Socket) (frames : list bytes) : M State unit :=
  modify (emit (Send s frames)).

(** [self.poller.register(s, zmq.POLLIN)]: registering twice is harmless. *)
Definition poller_register (s : Socket) : M State unit :=
  modify (emit (Register s));;
  modify (set_poller (λ p, {[ s ]} ∪ p)).

(** [self.poller.unregister(s)]: [KeyError] when [s] is not registered. *)
Definition poller_unregister (s : Socket) : M State unit :=
  p ← gets poller;
  if decide (s ∈ p) then
    modify (emit (Unregister s));;
    modify (set_poller (λ p, p ∖ {[ s ]}))
  else raise KeyError.

(** What is pending on the two sockets when an iteration polls: the next
    multipart message of each, if any.  A poll blocks until a registered
    socket is readable; a [Ready] that offers nothing on the registered
    sockets stands for a poll that reported no known socket, and the
    iteration then takes the last branch. *)
Record Ready := mkReady {
  ready_inbound : option (list bytes);
  ready_outbound : option (list bytes)
}.

Definition pending (r : Ready) (s : Socket) : option (list bytes) :=
  match s with
  | inbound => ready_inbound r
  | outbound => ready_outbound r
  end.

(** [dict(self.poller.poll())]: the registered sockets that are readable.
    The call has no timeout and returns only when there is one; the empty
    event is what the last branch of the loop is written for, and a run
    in which every poll returns is one in which it never occurs (see
    [BrokerInput.never_blocks]). *)
Definition poll (r : Ready) : M State (gset Socket) :=
  p ← gets poller;
  let event := filter (λ s, is_Some (pending r s)) p in
  modify (emit (Polled event));;
  M_ret event.

Definition recv_multipart (r : Ready) (s : Socket) : M State (list bytes) :=
  match pending r s with
  | Some frames => modify (emit (Recv s frames));; M_ret frames
  | None => raise WouldBlock
  end.

(** *** Observations on a trace *)

(** The multipart messages sent on [s], oldest first. *)
Definition sent (s : Socket) (tr : list Action) : list (list bytes) :=
  omap (λ a, match a with
             | Send s' frames => if decide (s' = s) then Some frames else None
             | _ => None
             end) tr.

(** The multipart messages taken from [s]. *)
Definition received (s : Socket) (tr : list Action) : list (list bytes) :=
  omap (λ a, match a with
             | Recv s' frames => if decide (s' = s) then Some frames else None
             | _ => None
             end) tr.

(** The records logged at level [l]. *)
Definition logged (l : Level) (tr : list Action) : list string :=
  omap (λ a, match a with
             | Log l' msg => if decide (l' = l) then Some msg else None
             | _ => None
             end) tr.

(** The number of polls, that is, of iterations begun. *)
Definition polls (tr : list Action) : nat :=
  length (omap (λ a, match a with Polled ev => Some ev | _ => None end) tr).

(** The sockets on which [close()] was called. *)
Definition closes (tr : list Action) : list Socket :=
  omap (λ a, match a with Close s => Some s | _ => None end) tr.

(** The calls of [poller.register]. *)
Definition registrations (tr : list Action) : list Socket :=
  omap (λ a, match a with Register s => Some s | _ => None end) tr.

(** The branch of [if self.outbound in event: ... elif self.inbound in
    event: ... else: ...] that an iteration takes. *)
Definition served (r : Ready) (st : State) : option Socket :=
  let event : gset Socket := filter (λ s, is_Some (pending r s)) (poller st) in
  if decide (outbound ∈ event) then Some outbound
  else if decide (inbound ∈ event) then Some inbound
  else None.

(** The gate on the inbound side: while the inbound socket is registered,
    nothing waits in the ledger or in the buffer; the outbound socket is
    always registered. *)
Definition gated (st : State) : Prop :=
  outbound ∈ poller st
  ∧ (inbound ∈ poller st → ledger st = ∅ ∧ buffer st = ∅).

(** *** The event loop ([Broker.start]) *)

Section EventLoop.
Context `{Codec BrokerMessage.t}.

(** Lines 101-125: a worker sent feedback. *)
Definition outbound_event (r : Ready) : M State unit :=
  frames ← recv_multipart r outbound;
  '(component, empty, feedback) ← unpack3 frames;
  broker_message ← parse feedback;
  logger DEBUG "Handling outbound event: {}";;
  (* If any message has been buffered *)
  buf ← gets buffer;
  match buf !! component with
  | Some message_data =>
      logger DEBUG "The message was buffered";;
      modify (set_buffer (delete component));;
      send_multipart outbound [component; empty; message_data]
  | None =>
      logger DEBUG "Component added as available";;
      modify (set_available_outbound (λ l, (l ++ [component])%list))
  end;;
  (* Check if some socket is waiting for the response. *)
  led ← gets ledger;
  match led !! BrokerMessage.key broker_message with
  | Some waiting =>
      logger DEBUG "Message ID found in ledger";;
      modify (set_ledger (delete (BrokerMessage.key broker_message)));;
      logger DEBUG "Unblocking pending inbound: {}";;
      send_multipart inbound
        [waiting; empty; BrokerMessage.payload broker_message]
  | None => M_ret tt
  end;;
  st ← get;
  if decide (available_outbound st ≠ [] ∧ buffer st = ∅ ∧ ledger st = ∅)
  then poller_register inbound
  else M_ret tt.

(** Lines 127-162: a producer sent a request. *)
Definition inbound_event (r : Ready) : M State unit :=
  logger DEBUG "Handling inbound event";;
  frames ← recv_multipart r inbound;
  '(component, empty, message_data) ← unpack3 frames;
  broker_message ← parse message_data;
  (* Start internal routing *)
  registrations ← gets inbound_components;
  match registrations !! component with
  | None => raise KeyError
  | Some registration =>
      let route_to := route registration in
      let block := block registration in
      available ← gets available_outbound;
      if decide (route_to = "") then
        (* If no routing needed *)
        logger DEBUG "Message back to {}";;
        send_multipart inbound [component; empty; "1"]
      else if decide (route_to ∈ available) then
        (* If an outbound is listening *)
        logger DEBUG "Broker routing to {}";;
        modify (set_available_outbound (list_remove_first route_to));;
        send_multipart outbound
          [route_to; empty; SerializeToString broker_message];;
        if negb block then
          logger DEBUG "Unblocking inbound";;
          send_multipart inbound [component; empty; "1"]
        else
          modify (set_ledger
                    (<[ BrokerMessage.key broker_message := component ]>));;
          logger DEBUG "Inbound waiting for feedback: {}";;
          poller_unregister inbound
      else
        (* The corresponding outbound is not listening: buffer the message *)
        modify (set_buffer
                  (<[ route_to := SerializeToString broker_message ]>));;
        logger INFO "Sent to buffer.";;
        poller_unregister inbound
  end.

(** One pass of the body of [for i in range(self.messages)]. *)
Definition iteration (r : Ready) : M State unit :=
  event ← poll r;
  logger DEBUG "Event {}";;
  (if decide (outbound ∈ event) then outbound_event r
   else if decide (inbound ∈ event) then inbound_event r
   else logger CRITICAL "Socket not known.");;
  logger DEBUG "Finished event cycle.".

(** The statements of [start] that precede the loop. *)
Definition launch : M State unit :=
  modify (set_available_outbound (λ _, []));;
  logger INFO "Launch broker";;
  logger INFO "Inbound socket: {}";;
  logger INFO "Outbound socket: {}".

(** [Broker.start], against an environment that tells what is pending on
    the sockets at the [i]-th poll. *)
Definition start (env : nat → Ready) : M State unit :=
  launch;;
  n ← gets messages;
  for_each (range n) (λ i, iteration (env i)).

(** A broker as the caller hands it to [start]: constructed, then given
    its registrations. *)
Inductive configured : State → Prop :=
| configured_init messages : configured (__init__ messages)
| configured_inbound st name route block log :
    configured st → configured (register_inbound name route block log st)
| configured_outbound st name log :
    configured st → configured (register_outbound name log st).

(** The states [start] is in between two iterations. *)
Inductive reachable : State → Prop :=
| reachable_launch st : configured st → reachable (launch st).2
| reachable_iteration st r : reachable st → reachable (iteration r st).2.

End EventLoop.

End Broker.

(** ** The push-pull service ([pylm_ng/components/services.py]) *)

Module PushPullService.

(** [self.push], [self.pull] and the REQ socket [self.broker]. *)
Inductive Socket := push | pull | broker.

#[global] Instance Socket_eq_dec : EqDecision Socket.
Proof. solve_decision. Defined.

#[global] Instance Socket_countable : Countable Socket.
Proof.
  refine (inj_countable'
            (λ s, match s with push => 0 | pull => 1 | broker => 2 end)
            (λ n : nat, match n with 0 => push | 1 => pull | _ => broker end) _).
  by intros [].
Defined.

Inductive Action :=
| Log (level : Level) (msg : string)
| Send (s : Socket) (data : bytes)
| Recv (s : Socket) (data : bytes)
| HandleFeedback (data : bytes)
| ReplyFeedback (data : bytes)
| Close (s : Socket).

(** The three methods a subclass overrides.  [U] stands for the attributes
    the subclass keeps on [self]; a generator returned by [scatter] is
    modelled by the finite list of the values it yields. *)
Class Overrides (U : Type) := {
  scatter : bytes → list bytes;
  handle_feedback : bytes → U → U;
  reply_feedback : U → bytes
}.

(** The methods as [PushPullService] defines them. *)
Definition defaults : Overrides unit := {|
  scatter message_data := [message_data];
  handle_feedback _ u := u;
  reply_feedback _ := "0"
|}.

(** [MyMaster] of [docs/source/examples/scatter/master.py]:
    [for i in range(3): yield message]. *)
Definition MyMaster : Overrides unit := {|
  scatter message := map (λ _, message) (range 3);
  handle_feedback _ u := u;
  reply_feedback _ := "0"
|}.

Record State (U : Type) := mkState {
  name : bytes;
  palm : bool;
  cache : option (gmap string bytes);
  messages : Z;
  user : U;
  uuids : nat;             (* values drawn from [uuid4] so far *)
  broker_received : nat;   (* messages taken from the broker socket *)
  pull_received : nat;     (* messages taken from the pull socket *)
  closed : gset Socket;
  trace : list Action
}.
Arguments mkState {U}.
Arguments name {U}.
Arguments palm {U}.
Arguments cache {U}.
Arguments messages {U}.
Arguments user {U}.
Arguments uuids {U}.
Arguments broker_received {U}.
Arguments pull_received {U}.
Arguments closed {U}.
Arguments trace {U}.

Section Service.
Context {U : Type}.

Definition set_cache (f : gmap string bytes → gmap string bytes)
    (st : State U) : State U :=
  mkState (name st) (palm st) (f <$> cache st) (messages st) (user st)
    (uuids st) (broker_received st) (pull_received st) (closed st) (trace st).

Definition set_user (f : U → U) (st : State U) : State U :=
  mkState (name st) (palm st) (cache st) (messages st) (f (user st))
    (uuids st) (broker_received st) (pull_received st) (closed st) (trace st).

Definition set_uuids (f : nat → nat) (st : State U) : State U :=
  mkState (name st) (palm st) (cache st) (messages st) (user st)
    (f (uuids st)) (broker_received st) (pull_received st) (closed st)
    (trace st).

Definition set_broker_received (f : nat → nat) (st : State U) : State U :=
  mkState (name st) (palm st) (cache st) (messages st) (user st)
    (uuids st) (f (broker_received st)) (pull_received st) (closed st)
    (trace st).

Definition set_pull_received (f : nat → nat) (st : State U) : State U :=
  mkState (name st) (palm st) (cache st) (messages st) (user st)
    (uuids st) (broker_received st) (f (pull_received st)) (closed st)
    (trace st).

Definition set_closed (f : gset Socket → gset Socket) (st : State U) : State U :=
  mkState (name st) (palm st) (cache st) (messages st) (user st)
    (uuids st) (broker_received st) (pull_received st) (f (closed st))
    (trace st).

Definition emit (a : Action) (st : State U) : State U :=
  mkState (name st) (palm st) (cache st) (messages st) (user st)
    (uuids st) (broker_received st) (pull_received st) (closed st)
    (trace st ++ [a])%list.

(** [PushPullService.__init__] with the attributes a subclass adds. *)
Definition __init__ (name : string) (palm : bool)
    (cache : option (gmap string bytes)) (messages : Z) (u : U) : State U :=
  mkState name palm cache messages u 0 0 0 ∅ [].

(** *** Primitive effects *)

Definition logger (l : Level) (msg : string) : M (State U) unit :=
  modify (emit (Log l msg)).

Definition send (s : Socket) (data : bytes) : M (State U) unit :=
  modify (emit (Send s data)).

Definition close (s : Socket) : M (State U) unit :=
  modify (emit (Close s));;
  modify (set_closed (λ c, {[ s ]} ∪ c)).

(** The environment: the values [uuid4] returns, and the messages the
    broker and the worker pool deliver, each in the order of the calls. *)
Record Env := mkEnv {
  uuid4 : nat → string;
  from_broker : nat → bytes;
  from_pull : nat → bytes
}.

Section WithEnv.
Variable env : Env.

(** [str(uuid4())] *)
Definition fresh_key : M (State U) string :=
  n ← gets uuids;
  modify (set_uuids S);;
  M_ret (uuid4 env n).

Definition broker_recv : M (State U) bytes :=
  n ← gets broker_received;
  modify (set_broker_received S);;
  modify (emit (Recv broker (from_broker env n)));;
  M_ret (from_broker env n).

Definition pull_recv : M (State U) bytes :=
  n ← gets pull_received;
  modify (set_pull_received S);;
  modify (emit (Recv pull (from_pull env n)));;
  M_ret (from_pull env n).

(** Modelled from the spec: the cache class is not among the sources; its
    contract is a mapping from keys to bytes with [set], [get] and
    [delete].  [self.cache] is [None] unless the caller passes a cache. *)
Definition cache_set (k : string) (v : bytes) : M (State U) unit :=
  c ← gets cache;
  match c with
  | None => raise AttributeError
  | Some _ => modify (set_cache (<[ k := v ]>))
  end.

Definition cache_get (k : string) : M (State U) (option bytes) :=
  c ← gets cache;
  match c with
  | None => raise AttributeError
  | Some c => M_ret (c !! k)
  end.

(** [ParseFromString] applied to the result of [cache.get]. *)
Definition parse_cached `{Codec PalmMessage.t} (o : option bytes)
    : M (State U) PalmMessage.t :=
  match o with
  | None => raise TypeError
  | Some data => parse data
  end.

(** *** Envelope translation *)

Section Translation.
Context `{Codec BrokerMessage.t} `{Codec PalmMessage.t}.

Definition _translate_to_broker (message_data : bytes) : M (State U) bytes :=
  broker_message_key ← fresh_key;
  is_palm ← gets palm;
  payload ←
    (if is_palm then
       palm_message ← parse message_data;
       (* stored to get it back when the message is outbound *)
       cache_set broker_message_key message_data;;
       M_ret (PalmMessage.payload palm_message)
     else M_ret message_data);
  M_ret (SerializeToString (BrokerMessage.Build broker_message_key payload)).

Definition _translate_from_broker (message_data : bytes) : M (State U) bytes :=
  broker_message ← parse message_data;
  is_palm ← gets palm;
  if is_palm then
    cached ← cache_get (BrokerMessage.key broker_message);
    palm_message ← parse_cached cached;
    M_ret (SerializeToString
             (PalmMessage.set_payload (BrokerMessage.payload broker_message)
                palm_message))
  else M_ret (BrokerMessage.payload broker_message).

End Translation.

(** *** The scatter loop ([PushPullService.start]) *)

Section Start.
Context `{Codec BrokerMessage.t} `{Overrides U}.

Definition call_handle_feedback (data : bytes) : M (State U) unit :=
  modify (emit (HandleFeedback data));;
  modify (set_user (handle_feedback data)).

Definition call_reply_feedback : M (State U) bytes :=
  u ← gets user;
  modify (emit (ReplyFeedback (reply_feedback u)));;
  M_ret (reply_feedback u).

(** The body of [for scattered in self.scatter(message_data)]. *)
Definition fan_out (scattered : bytes) : M (State U) unit :=
  send push scattered;;
  feedback ← pull_recv;
  call_handle_feedback feedback.

(** The body of [for i in range(self.messages)]. *)
Definition serve_one : M (State U) unit :=
  logger DEBUG "Component {} blocked waiting for broker";;
  message_data ← broker_recv;
  logger DEBUG "Got message from broker";;
  for_each (scatter message_data) fan_out;;
  reply ← call_reply_feedback;
  send broker reply.

Definition start : M (State U) unit :=
  logger INFO "Launch component {}";;
  send broker (SerializeToString (BrokerMessage.Build "0" "0"));;
  n ← gets messages;
  for_each (range n) (λ _, serve_one).

End Start.

Definition cleanup : M (State U) unit :=
  close push;;
  close pull;;
  close broker.

(** *** Observations *)

(** The [n] messages the pool delivers from the [k]-th on. *)
Definition responses (k n : nat) : list bytes := map (from_pull env) (seq k n).

(** One push with the pull that answers it. *)
Definition pool_round (scattered response : bytes) : list Action :=
  [Send push scattered; Recv pull response; HandleFeedback response].

(** [self] after [handle_feedback] saw each of the responses in turn. *)
Definition fed_back `{Overrides U} (rs : list bytes) (u : U) : U :=
  fold_left (λ u r, handle_feedback r u) rs u.

End WithEnv.

(** The messages sent on [s], oldest first. *)
Definition sent (s : Socket) (tr : list Action) : list bytes :=
  omap (λ a, match a with
             | Send s' data => if decide (s' = s) then Some data else None
             | _ => None
             end) tr.

(** The messages taken from [s]. *)
Definition received (s : Socket) (tr : list Action) : list bytes :=
  omap (λ a, match a with
             | Recv s' data => if decide (s' = s) then Some data else None
             | _ => None
             end) tr.

(** The values [reply_feedback] returned. *)
Definition replies (tr : list Action) : list bytes :=
  omap (λ a, match a with ReplyFeedback data => Some data | _ => None end) tr.

End Service.

Arguments set_cache {U} f !st /.
Arguments set_user {U} f !st /.
Arguments set_uuids {U} f !st /.
Arguments set_broker_received {U} f !st /.
Arguments set_pull_received {U} f !st /.
Arguments set_closed {U} f !st /.
Arguments emit {U} a !st /.

End PushPullService.

(** ** The scenario of [tests/test_feedback.py] *)

Module Scenario.
Import Wire.
Import Broker.

(** The broker of [test_feedback] with its three registrations (the test
    registers the worker's name with [register_inbound], too). *)
Definition broker_for (messages : Z) : State :=
  register_inbound "outbound" "" false "outbound"
    (register_inbound "inbound2" "outbound" false "inbound2"
       (register_inbound "inbound1" "outbound" true "inbound1"
          (__init__ messages))).

Definition broker : State := broker_for 20.

Definition envelope (key : string) (payload : bytes) : bytes :=
  SerializeToString (BrokerMessage.Build key payload).

(** The worker's first message: [key = '0'], [payload = b'READY']. *)
Definition worker_ready : Ready :=
  mkReady None (Some ["outbound"; ""; envelope "0" "READY"]).

(** The worker echoing a request. *)
Definition echo (key : string) (payload : bytes) : Ready :=
  mkReady None (Some ["outbound"; ""; envelope key payload]).

(** A request of a producer, nothing pending from the worker. *)
Definition request (producer : bytes) (key : string) (payload : bytes) : Ready :=
  mkReady (Some [producer; ""; envelope key payload]) None.

(** The broker launched; then the worker ready; then either the blocking
    producer or the other one served first. *)
Definition launched : State := (launch broker).2.
Definition ready : State := (iteration worker_ready launched).2.
Definition blocked : State :=
  (iteration (request "inbound1" "key-0" "0") ready).2.
Definition busy : State :=
  (iteration (request "inbound2" "key-1" "1") ready).2.

(** The blocking producer's request arrives while the worker is busy with
    the other producer's: it is buffered, handed to the worker when the
    worker reports back, and echoed by the worker in turn. *)
Definition buffered : State :=
  (iteration (request "inbound1" "key-0" "0") busy).2.
Definition drained : State := (iteration (echo "key-1" "1") buffered).2.
Definition echoed : State := (iteration (echo "key-0" "0") drained).2.

(** One round trip of the blocking producer. *)
Definition round_trip (i : nat) : Ready :=
  match i with
  | 0 => worker_ready
  | 1 => request "inbound1" "key-0" "0"
  | _ => echo "key-0" "0"
  end.

(** What the broker of the test receives when both producers send their
    first request before the worker has echoed one: the worker's ready
    message, the request of [inbound2], the request of [inbound1], and the
    worker's echo of each. *)
Definition through_the_buffer (i : nat) : Ready :=
  match i with
  | 0 => worker_ready
  | 1 => request "inbound2" "key-1" "1"
  | 2 => request "inbound1" "key-0" "0"
  | 3 => echo "key-1" "1"
  | _ => echo "key-0" "0"
  end.

(** The same with a request from a producer nobody registered. *)
Definition with_stranger (i : nat) : Ready :=
  match i with
  | 0 => worker_ready
  | 1 => request "stranger" "key-9" "9"
  | _ => echo "key-9" "9"
  end.

End Scenario.

(** ** A PALM round trip and a scatter of three *)

Module ServiceScenario.
Import Wire.
Import PushPullService.

(** Keys are drawn in sequence; the broker delivers ["m"]; the pool answers
    with the number of the answer. *)
Definition env : Env :=
  {| uuid4 n := pretty n;
     from_broker _ := "m";
     from_pull n := pretty n |}.

Definition client_envelope : PalmMessage.t :=
  PalmMessage.Build "c1" "p" "f" 0 "hello" None None.

Definition palm_service : State unit :=
  __init__ "server" true (Some ∅) 10 tt.

Definition binary_service : State unit :=
  __init__ "server" false None 10 tt.

(** The service after it translated the client envelope for the broker,
    and the response of a worker that upper-cases the payload. *)
Definition translated : State unit :=
  (_translate_to_broker env (SerializeToString client_envelope)
     palm_service).2.

Definition response : bytes :=
  SerializeToString (BrokerMessage.Build (uuid4 env 0) "HELLO").

End ServiceScenario.

(** ** What the broker can be offered, and the traffic of the service *)

Module BrokerInput.
Import Broker.

Section Input.
Context `{Codec BrokerMessage.t}.

(** The message an iteration is about to take is one it can handle: three
    frames, the last of which parses, and, on the inbound side, a sender
    the broker has a registration for. *)
Definition acceptable (r : Ready) (st : State) : Prop :=
  match served r st with
  | Some outbound =>
      ∃ c e d, ready_outbound r = Some [c; e; d]
               ∧ is_Some (ParseFromString (A:=BrokerMessage.t) d)
  | Some inbound =>
      ∃ c e d, ready_inbound r = Some [c; e; d]
               ∧ is_Some (ParseFromString (A:=BrokerMessage.t) d)
               ∧ is_Some (inbound_components st !! c)
  | None => True
  end.

(** The same of everything that is pending, whichever socket is served. *)
Definition well_formed (registered : gmap bytes Registration) (r : Ready)
    : Prop :=
  (∀ frames, ready_outbound r = Some frames →
     ∃ c e d, frames = [c; e; d]
              ∧ is_Some (ParseFromString (A:=BrokerMessage.t) d))
  ∧ (∀ frames, ready_inbound r = Some frames →
       ∃ c e d, frames = [c; e; d]
                ∧ is_Some (ParseFromString (A:=BrokerMessage.t) d)
                ∧ is_Some (registered !! c)).

(** At this poll a registered socket is readable.  [self.poller.poll()] has
    no timeout: it returns only then, and blocks otherwise. *)
Definition readable (r : Ready) (st : State) : Prop := is_Some (served r st).

(** None of the polls of a run blocks. *)
Fixpoint never_blocks (env : nat → Ready) (indices : list nat) (st : State)
    : Prop :=
  match indices with
  | [] => True
  | i :: indices =>
      readable (env i) st
      ∧ never_blocks env indices (iteration (env i) st).2
  end.

End Input.
End BrokerInput.

Module ServiceTraffic.
Import PushPullService.

(** The directions of the traffic on the REQ socket to the broker, oldest
    first: [true] for a send, [false] for a receive. *)
Definition broker_traffic (tr : list Action) : list bool :=
  omap (λ a, match a with
             | Send s _ => if decide (s = broker) then Some true else None
             | Recv s _ => if decide (s = broker) then Some false else None
             | _ => None
             end) tr.

(** The same for the pool: [true] for a push, [false] for a pull. *)
Definition pool_traffic (tr : list Action) : list bool :=
  omap (λ a, match a with
             | Send s _ => if decide (s = push) then Some true else None
             | Recv s _ => if decide (s = pull) then Some false else None
             | _ => None
             end) tr.

End ServiceTraffic.

Module WorkerCount.

(** The multipart messages whose first frame, the identity, is [w]. *)
Definition addressed (w : bytes) (messages : list (list bytes)) : nat :=
  length (filter (λ frames, head frames = Some w) messages).

(** How many times [w] is listed among the available workers. *)
Definition listed (w : bytes) (l : list bytes) : nat :=
  length (filter (λ x, x = w) l).

(** The ledger entries under which producer [c] waits for a reply. *)
Definition waiting (c : bytes) (ledger : gmap string bytes) : nat :=
  size (filter (λ entry, entry.2 = c) ledger).

End WorkerCount.

(** * Properties of the broker *)

(** Symbolic execution of one iteration: unfold the monad, then split on
    whatever the code branches on. *)
Ltac broker_unfold :=
  unfold Broker.iteration, Broker.outbound_event, Broker.inbound_event,
    Broker.poll, Broker.recv_multipart, Broker.poller_register,
    Broker.poller_unregister, Broker.send_multipart, Broker.logger, parse,
    unpack3, M_bind, M_ret, raise, get, gets, modify in *;
  cbn in *.

Ltac broker_branch :=
  match goal with
  | H : ?x = _ |- context [ match ?x with _ => _ end ] => rewrite H
  | |- context [ decide ?P ] => destruct (decide P)
  | |- context [ Broker.ready_outbound ?r ] =>
      destruct (Broker.ready_outbound r) as [?frames|] eqn:?
  | |- context [ Broker.ready_inbound ?r ] =>
      destruct (Broker.ready_inbound r) as [?frames|] eqn:?
  | |- context [ match ?l with [] => _ | _ :: _ => _ end ] =>
      is_var l; destruct l
  | |- context [ ParseFromString ?d ] =>
      destruct (ParseFromString d) as [?bm|] eqn:?
  | |- context [ match ?m !! ?k with _ => _ end ] => destruct (m !! k) eqn:?
  | |- context [ negb (Broker.block ?b) ] => destruct (Broker.block b) eqn:?
  end; cbn.

Ltac broker_run := broker_unfold; repeat broker_branch.

(** The same on a goal about [iteration r st], whose outcome and final
    state are named first so that the cases are explored once. *)
Ltac iteration_cases r st :=
  let o := fresh "o" in
  let st' := fresh "st'" in
  let Hres := fresh "Hres" in
  destruct (Broker.iteration r st) as [o st'] eqn:Hres; revert Hres;
  destruct st; cbn in *; broker_run; try done;
  intros [= <- <-]; cbn.

(** Observations of a trace that grew by explicit actions. *)
Ltac trace_norm :=
  unfold Broker.sent, Broker.received, Broker.logged, Broker.polls,
    Broker.closes, Broker.registrations in *;
  rewrite <- ?app_assoc; cbn [app];
  rewrite ?omap_app, ?length_app; cbn;
  rewrite ?app_nil_r, ?Nat.add_0_r.

Section Removal.

(** [l.remove(x)] takes away the first occurrence of [x] and nothing
    else. *)
Lemma list_remove_first_split x (l : list bytes) :
  x ∈ l →
  ∃ before after,
    l = (before ++ x :: after)%list
    ∧ (x ∉ before)
    ∧ list_remove_first x l = (before ++ after)%list.
Proof.
  induction l as [|y l IH]; [by intros ?%elem_of_nil|].
  intros Hin. cbn [list_remove_first].
  destruct (decide (x = y)) as [<-|Hxy].
  - exists [], l. repeat split. apply not_elem_of_nil.
  - apply elem_of_cons in Hin as [?|Hin]; [done|].
    destruct (IH Hin) as (before & after & -> & Hnot & ->).
    exists (y :: before), after. repeat split.
    by intros [?|?]%elem_of_cons.
Qed.

(** A worker listed once is not listed afterwards. *)
Lemma list_remove_first_NoDup x (l : list bytes) :
  NoDup l → x ∉ list_remove_first x l.
Proof.
  induction 1 as [|y l Hy Hl IH]; [apply not_elem_of_nil|].
  cbn [list_remove_first]. destruct (decide (x = y)) as [<-|Hxy]; [done|].
  by intros [?|?]%elem_of_cons.
Qed.

End Removal.

Section BrokerProperties.
Import Broker.
Context `{Codec BrokerMessage.t}.

(** Which branch an iteration takes is decided by what is registered and
    what is pending. *)
Lemma outbound_in_event r (p : gset Socket) :
  outbound ∈ filter (λ s, is_Some (pending r s)) p
  ↔ outbound ∈ p ∧ is_Some (ready_outbound r).
Proof. by rewrite elem_of_filter; cbn; split; intros []. Qed.

Lemma inbound_in_event r (p : gset Socket) :
  inbound ∈ filter (λ s, is_Some (pending r s)) p
  ↔ inbound ∈ p ∧ is_Some (ready_inbound r).
Proof. by rewrite elem_of_filter; cbn; split; intros []. Qed.

Lemma served_outbound r st :
  served r st = Some outbound
  ↔ outbound ∈ poller st ∧ is_Some (ready_outbound r).
Proof.
  unfold served. rewrite <- outbound_in_event.
  repeat case_decide; split; try done; by intros [].
Qed.

Lemma served_inbound r st :
  served r st = Some inbound →
  (outbound ∉ filter (λ s, is_Some (pending r s)) (poller st))
  ∧ (inbound ∈ filter (λ s, is_Some (pending r s)) (poller st))
  ∧ (inbound ∈ poller st).
Proof.
  unfold served. repeat case_decide; try done.
  intros _. repeat split; try done. by eapply inbound_in_event.
Qed.

Lemma served_not_inbound r st :
  inbound ∉ poller st → served r st ≠ Some inbound.
Proof. intros Hn Hs. by apply served_inbound in Hs as (_ & _ & ?). Qed.

Lemma outbound_stays_registered r st :
  outbound ∈ poller st → outbound ∈ poller (iteration r st).2.
Proof.
  intros Ho. iteration_cases r st; try done;
    try (by apply elem_of_union_r);
    by apply elem_of_difference; split; [|intros ?%elem_of_singleton].
Qed.

(** *** The outbound event, field by field *)

Lemma outbound_event_tables st r w e f fb :
  outbound ∈ poller st →
  ready_outbound r = Some [w; e; f] →
  ParseFromString f = Some fb →
  (iteration r st).1 = Return tt
  ∧ buffer (iteration r st).2 = delete w (buffer st)
  ∧ ledger (iteration r st).2 = delete (BrokerMessage.key fb) (ledger st).
Proof.
  intros Ho Hr Hp.
  assert (Hev := proj2 (outbound_in_event r (poller st))
                   (conj Ho (mk_is_Some _ _ Hr))).
  iteration_cases r st; repeat split; try done; by rewrite delete_id.
Qed.

Lemma outbound_event_dispatch st r w e f fb :
  outbound ∈ poller st →
  ready_outbound r = Some [w; e; f] →
  ParseFromString f = Some fb →
  match buffer st !! w with
  | Some message_data =>
      sent outbound (trace (iteration r st).2)
      = (sent outbound (trace st) ++ [[w; e; message_data]])%list
      ∧ available_outbound (iteration r st).2 = available_outbound st
  | None =>
      sent outbound (trace (iteration r st).2) = sent outbound (trace st)
      ∧ available_outbound (iteration r st).2
        = (available_outbound st ++ [w])%list
  end.
Proof.
  intros Ho Hr Hp.
  assert (Hev := proj2 (outbound_in_event r (poller st))
                   (conj Ho (mk_is_Some _ _ Hr))).
  iteration_cases r st; split; try done; by trace_norm.
Qed.

Lemma outbound_event_replies st r w e f fb :
  outbound ∈ poller st →
  ready_outbound r = Some [w; e; f] →
  ParseFromString f = Some fb →
  sent inbound (trace (iteration r st).2)
  = (sent inbound (trace st)
     ++ match ledger st !! BrokerMessage.key fb with
        | Some producer => [[producer; e; BrokerMessage.payload fb]]
        | None => []
        end)%list.
Proof.
  intros Ho Hr Hp.
  assert (Hev := proj2 (outbound_in_event r (poller st))
                   (conj Ho (mk_is_Some _ _ Hr))).
  iteration_cases r st; by trace_norm.
Qed.


(** *** The inbound event, path by path *)

(** A blocking producer routed to an available worker. *)
Lemma inbound_event_blocking st r c e d m reg :
  served r st = Some inbound →
  ready_inbound r = Some [c; e; d] →
  ParseFromString d = Some m →
  inbound_components st !! c = Some reg →
  route reg ≠ "" →
  route reg ∈ available_outbound st →
  block reg = true →
  (iteration r st).1 = Return tt
  ∧ available_outbound (iteration r st).2
    = list_remove_first (route reg) (available_outbound st)
  ∧ ledger (iteration r st).2 = <[ BrokerMessage.key m := c ]> (ledger st)
  ∧ buffer (iteration r st).2 = buffer st
  ∧ poller (iteration r st).2 = poller st ∖ {[ inbound ]}
  ∧ sent outbound (trace (iteration r st).2)
    = (sent outbound (trace st) ++ [[route reg; e; SerializeToString m]])%list
  ∧ sent inbound (trace (iteration r st).2) = sent inbound (trace st).
Proof.
  intros Hs Hr Hp Hreg Hroute Hav Hb.
  apply served_inbound in Hs as (Hno & Hev & Hin).
  iteration_cases r st; repeat split; try done; by trace_norm.
Qed.

(** A producer routed to a worker that is not available. *)
Lemma inbound_event_buffering st r c e d m reg :
  served r st = Some inbound →
  ready_inbound r = Some [c; e; d] →
  ParseFromString d = Some m →
  inbound_components st !! c = Some reg →
  route reg ≠ "" →
  route reg ∉ available_outbound st →
  (iteration r st).1 = Return tt
  ∧ available_outbound (iteration r st).2 = available_outbound st
  ∧ ledger (iteration r st).2 = ledger st
  ∧ buffer (iteration r st).2
    = <[ route reg := SerializeToString m ]> (buffer st)
  ∧ poller (iteration r st).2 = poller st ∖ {[ inbound ]}
  ∧ sent outbound (trace (iteration r st).2) = sent outbound (trace st)
  ∧ sent inbound (trace (iteration r st).2) = sent inbound (trace st)
  ∧ logged CRITICAL (trace (iteration r st).2) = logged CRITICAL (trace st)
  ∧ logged INFO (trace (iteration r st).2)
    = (logged INFO (trace st) ++ ["Sent to buffer."])%list.
Proof.
  intros Hs Hr Hp Hreg Hroute Hav.
  apply served_inbound in Hs as (Hno & Hev & Hin).
  iteration_cases r st; repeat split; try done; by trace_norm.
Qed.

(** A producer the broker has no registration for. *)
Lemma inbound_event_unknown st r c e d :
  served r st = Some inbound →
  ready_inbound r = Some [c; e; d] →
  inbound_components st !! c = None →
  (iteration r st).1
  = Raise match ParseFromString (A:=BrokerMessage.t) d with
          | Some _ => KeyError
          | None => DecodeError
          end
  ∧ available_outbound (iteration r st).2 = available_outbound st
  ∧ ledger (iteration r st).2 = ledger st
  ∧ buffer (iteration r st).2 = buffer st
  ∧ poller (iteration r st).2 = poller st
  ∧ sent outbound (trace (iteration r st).2) = sent outbound (trace st)
  ∧ sent inbound (trace (iteration r st).2) = sent inbound (trace st)
  ∧ logged CRITICAL (trace (iteration r st).2) = logged CRITICAL (trace st).
Proof.
  intros Hs Hr Hreg.
  apply served_inbound in Hs as (Hno & Hev & Hin).
  iteration_cases r st; repeat split; try done; by trace_norm.
Qed.

(** *** The gate on the inbound side *)

Lemma configured_gated st : configured st → gated (launch st).2.
Proof.
  induction 1 as [ms|st name rt blk lg _ IH|st name lg _ IH]; try done.
Qed.

Lemma iteration_gated r st : gated st → gated (iteration r st).2.
Proof.
  intros [Ho Hg]. split; [by apply outbound_stays_registered|].
  clear Ho. iteration_cases r st;
    try (by intros [_ []]%elem_of_difference; apply elem_of_singleton).
  all: try (by intros _; intuition).
  all: intros Hin; destruct (Hg Hin) as [-> ->];
    by rewrite ?lookup_empty in *.
Qed.

Lemma reachable_gated st : reachable st → gated st.
Proof.
  induction 1; [by apply configured_gated | by apply iteration_gated].
Qed.

(** With the inbound socket unregistered, nothing is taken from it. *)
Lemma unregistered_inbound_not_read r st :
  inbound ∉ poller st →
  received inbound (trace (iteration r st).2) = received inbound (trace st).
Proof.
  intros Hn.
  assert (Hev : inbound ∉ filter (λ s, is_Some (pending r s)) (poller st))
    by (by intros [? _]%inbound_in_event).
  iteration_cases r st; by trace_norm.
Qed.

(** When the outbound event registers the inbound socket again. *)
Lemma outbound_event_poller st r w e f fb :
  outbound ∈ poller st →
  ready_outbound r = Some [w; e; f] →
  ParseFromString f = Some fb →
  ((available_outbound (iteration r st).2 ≠ []
    ∧ buffer (iteration r st).2 = ∅
    ∧ ledger (iteration r st).2 = ∅) →
   poller (iteration r st).2 = {[ inbound ]} ∪ poller st
   ∧ registrations (trace (iteration r st).2)
     = (registrations (trace st) ++ [inbound])%list)
  ∧ (¬ (available_outbound (iteration r st).2 ≠ []
        ∧ buffer (iteration r st).2 = ∅
        ∧ ledger (iteration r st).2 = ∅) →
     poller (iteration r st).2 = poller st
     ∧ registrations (trace (iteration r st).2) = registrations (trace st)).
Proof.
  intros Ho Hr Hp.
  assert (Hev := proj2 (outbound_in_event r (poller st))
                   (conj Ho (mk_is_Some _ _ Hr))).
  iteration_cases r st;
    (split; intros Hc; [|done]) || (split; intros Hc; [done|]);
    split; try done; by trace_norm.
Qed.

(** C1. Whenever the ledger or the buffer is non-empty the inbound socket
    is not registered with the poller, and the broker takes no inbound
    event; the inbound socket is unregistered at every blocking dispatch and
    at every buffering; and after an outbound event the inbound socket is
    registered exactly when the available workers are non-empty and both
    the buffer and the ledger are empty. *)
Theorem inbound_gating st :
  reachable st →
  ((ledger st ≠ ∅ ∨ buffer st ≠ ∅) →
     (inbound ∉ poller st)
     ∧ ∀ r, served r st ≠ Some inbound
            ∧ received inbound (trace (iteration r st).2)
              = received inbound (trace st))
  ∧ (∀ r c e d m reg,
       served r st = Some inbound →
       ready_inbound r = Some [c; e; d] →
       ParseFromString d = Some m →
       inbound_components st !! c = Some reg →
       route reg ≠ "" →
       (route reg ∈ available_outbound st ∧ block reg = true)
       ∨ route reg ∉ available_outbound st →
       inbound ∉ poller (iteration r st).2)
  ∧ (∀ r w e f fb,
       ready_outbound r = Some [w; e; f] →
       ParseFromString f = Some fb →
       let st' := (iteration r st).2 in
       let enabled :=
         available_outbound st' ≠ [] ∧ buffer st' = ∅ ∧ ledger st' = ∅ in
       (inbound ∈ poller st' ↔ enabled)
       ∧ registrations (trace st')
         = (registrations (trace st)
            ++ if decide enabled then [inbound] else [])%list).
Proof.
  intros Hreach. destruct (reachable_gated st Hreach) as [Ho Hg].
  split; [|split].
  - intros Hne.
    assert (Hn : inbound ∉ poller st).
    { intros Hin. destruct (Hg Hin) as [? ?]. by destruct Hne. }
    split; [done|]. intros r. split.
    + by apply served_not_inbound.
    + by apply unregistered_inbound_not_read.
  - intros r c e d m reg Hs Hr Hp Hreg Hroute [[Hav Hb]|Hav].
    + destruct (inbound_event_blocking st r c e d m reg)
        as (_ & _ & _ & _ & -> & _); try done.
      intros [_ []]%elem_of_difference. by apply elem_of_singleton.
    + destruct (inbound_event_buffering st r c e d m reg)
        as (_ & _ & _ & _ & -> & _); try done.
      intros [_ []]%elem_of_difference. by apply elem_of_singleton.
  - intros r w e f fb Hr Hp st' enabled.
    pose proof (outbound_event_poller st r w e f fb Ho Hr Hp) as Hpol.
    destruct (outbound_event_tables st r w e f fb Ho Hr Hp)
      as (_ & Hbuf & Hled).
    pose proof (outbound_event_dispatch st r w e f fb Ho Hr Hp) as Hdis.
    fold st' in Hpol, Hbuf, Hled, Hdis. fold enabled in Hpol.
    destruct Hpol as [Hyes Hno].
    destruct (decide enabled) as [Hen|Hen];
      [destruct (Hyes Hen) as [Hpol Hregs]|destruct (Hno Hen) as [Hpol Hregs]].
    + rewrite Hpol, Hregs. split; [|done].
      split; [done|]. intros _. apply elem_of_union_l.
      by apply elem_of_singleton.
    + rewrite Hpol, Hregs, app_nil_r. split; [|done].
      split; [|done]. intros Hin. destruct (Hg Hin) as [Hl0 Hb0].
      rewrite Hb0, lookup_empty in Hdis. destruct Hdis as [_ Hav].
      repeat split.
      * rewrite Hav. by destruct (available_outbound st).
      * by rewrite Hbuf, Hb0, delete_empty.
      * by rewrite Hled, Hl0, delete_empty.
Qed.

(** C3. A producer registered as blocking sends a request while the worker
    its route names is available: the worker is removed from the available
    workers (the list loses the first occurrence of the worker and nothing
    else, so that a worker listed once is no longer available), the
    envelope is forwarded to it, the ledger maps the envelope's key to the
    producer, the producer gets no acknowledgement, and the inbound socket
    is unregistered. *)
Theorem blocking_dispatch st r c e d m reg :
  served r st = Some inbound →
  ready_inbound r = Some [c; e; d] →
  ParseFromString d = Some m →
  inbound_components st !! c = Some reg →
  route reg ≠ "" →
  route reg ∈ available_outbound st →
  block reg = true →
  let st' := (iteration r st).2 in
  (iteration r st).1 = Return tt
  ∧ (∃ before after,
       available_outbound st = (before ++ route reg :: after)%list
       ∧ (route reg ∉ before)
       ∧ available_outbound st' = (before ++ after)%list)
  ∧ (NoDup (available_outbound st) → route reg ∉ available_outbound st')
  ∧ sent outbound (trace st')
    = (sent outbound (trace st) ++ [[route reg; e; SerializeToString m]])%list
  ∧ ledger st' = <[ BrokerMessage.key m := c ]> (ledger st)
  ∧ sent inbound (trace st') = sent inbound (trace st)
  ∧ inbound ∉ poller st'.
Proof.
  intros Hs Hr Hp Hreg Hroute Hav Hb st'.
  destruct (inbound_event_blocking st r c e d m reg)
    as (Hret & Havail & Hled & _ & Hpol & Hout & Hinb); try done.
  fold st' in Havail, Hled, Hpol, Hout, Hinb.
  split; [done|]. split; [|split].
  - destruct (list_remove_first_split _ _ Hav) as (before & after & ? & ? & Hrm).
    exists before, after. by rewrite Havail, Hrm.
  - intros Hnd. rewrite Havail. by apply list_remove_first_NoDup.
  - repeat split; try done.
    rewrite Hpol. intros [_ []]%elem_of_difference. by apply elem_of_singleton.
Qed.

(** *** The loop *)

(** Every iteration polls once and closes nothing. *)
Lemma iteration_bookkeeping r st :
  closed (iteration r st).2 = closed st
  ∧ messages (iteration r st).2 = messages st
  ∧ inbound_components (iteration r st).2 = inbound_components st
  ∧ polls (trace (iteration r st).2) = S (polls (trace st))
  ∧ closes (trace (iteration r st).2) = closes (trace st).
Proof.
  iteration_cases r st; repeat split; try done; trace_norm; try done; lia.
Qed.

Lemma for_each_cons {S A} (x : A) xs (body : A → M S unit) s :
  for_each (x :: xs) body s
  = match body x s with
    | (Return _, s') => for_each xs body s'
    | (Raise e, s') => (Raise e, s')
    end.
Proof. done. Qed.

Lemma loop_bookkeeping env (indices : list nat) st :
  closed (for_each indices (λ i, iteration (env i)) st).2 = closed st
  ∧ closes (trace (for_each indices (λ i, iteration (env i)) st).2)
    = closes (trace st)
  ∧ match (for_each indices (λ i, iteration (env i)) st).1 with
    | Return _ =>
        polls (trace (for_each indices (λ i, iteration (env i)) st).2)
        = polls (trace st) + length indices
    | Raise _ =>
        (polls (trace (for_each indices (λ i, iteration (env i)) st).2)
         ≤ polls (trace st) + length indices)%nat
    end.
Proof.
  revert st. induction indices as [|i indices IH]; intros st.
  - cbn. repeat split; lia.
  - rewrite for_each_cons.
    destruct (iteration_bookkeeping (env i) st) as (Hc & _ & _ & Hp & Hcl).
    destruct (iteration (env i) st) as [[[]|e] st1]; cbn in *.
    + destruct (IH st1) as (Hc1 & Hcl1 & Hp1).
      rewrite Hc1, Hcl1, Hc, Hcl. repeat split.
      destruct (for_each indices _ st1).1; lia.
    + repeat split; try done. lia.
Qed.

(** Every state [start] passes through, the last one included, is one of
    the states the properties above are about. *)
Lemma loop_reachable env (indices : list nat) st :
  reachable st → reachable (for_each indices (λ i, iteration (env i)) st).2.
Proof.
  revert st. induction indices as [|i indices IH]; intros st Hst; [done|].
  rewrite for_each_cons.
  pose proof (reachable_iteration st (env i) Hst) as Hnext.
  destruct (iteration (env i) st) as [[[]|e] st1]; cbn in *; auto.
Qed.

Lemma start_reachable env st : configured st → reachable (start env st).2.
Proof.
  intros Hst. apply reachable_launch in Hst.
  unfold start, M_bind at 1. destruct (launch st) as [[[]|e] st1]; [|done].
  unfold M_bind at 1, gets. by apply loop_reachable.
Qed.

(** An iteration that finds neither socket in the event logs it at critical
    level, the only record of that level the broker ever writes, and goes
    on. *)
Lemma no_known_socket r st :
  served r st = None →
  (iteration r st).1 = Return tt
  ∧ logged CRITICAL (trace (iteration r st).2)
    = (logged CRITICAL (trace st) ++ ["Socket not known."])%list.
Proof.
  unfold served. intros Hs. repeat case_decide; try done.
  iteration_cases r st; split; try done; by trace_norm.
Qed.

(** C8 (as the code has it). [start] begins at most [messages] iterations,
    exactly [messages] of them when none raises, and then returns; it calls
    [close()] on neither socket, so both endpoints are as open afterwards
    as they were before. *)
Theorem start_iterations env st :
  closed (start env st).2 = closed st
  ∧ closes (trace (start env st).2) = closes (trace st)
  ∧ match (start env st).1 with
    | Return _ =>
        polls (trace (start env st).2)
        = polls (trace st) + Z.to_nat (messages st)
    | Raise _ =>
        (polls (trace (start env st).2)
         ≤ polls (trace st) + Z.to_nat (messages st))%nat
    end.
Proof.
  unfold start, launch, logger, M_bind at 1 2 3 4 5, gets, modify. cbn.
  match goal with
  | |- context [ for_each ?l ?b ?s ] =>
      pose proof (loop_bookkeeping env l s) as (Hc & Hcl & Hp)
  end.
  unfold range in *. rewrite length_seq in Hp.
  destruct st; cbn in *. rewrite Hc, Hcl.
  split; [done|]. split; [by trace_norm|].
  revert Hp. trace_norm. done.
Qed.

(** The worker-busy branch has no check of the slot: it stores the message
    under [buffer[route]], logs at info level only, unregisters the inbound
    socket, and the loop goes on.  In a state [start] can be in, the buffer
    is empty whenever that branch runs, so a second message for a busy
    worker is never read while the first one waits, and no buffered message
    is ever replaced. *)
Theorem buffering_has_no_slot_check st r c e d m reg :
  served r st = Some inbound →
  ready_inbound r = Some [c; e; d] →
  ParseFromString d = Some m →
  inbound_components st !! c = Some reg →
  route reg ≠ "" →
  route reg ∉ available_outbound st →
  let st' := (iteration r st).2 in
  (iteration r st).1 = Return tt
  ∧ buffer st' = <[ route reg := SerializeToString m ]> (buffer st)
  ∧ logged CRITICAL (trace st') = logged CRITICAL (trace st)
  ∧ logged INFO (trace st')
    = (logged INFO (trace st) ++ ["Sent to buffer."])%list
  ∧ (inbound ∉ poller st')
  ∧ (reachable st →
     buffer st = ∅ ∧ buffer st' = {[ route reg := SerializeToString m ]}).
Proof.
  intros Hs Hr Hp Hreg Hroute Hav st'.
  destruct (inbound_event_buffering st r c e d m reg)
    as (Hret & _ & _ & Hbuf & Hpol & _ & _ & Hcrit & Hinfo); try done.
  fold st' in Hbuf, Hpol, Hcrit, Hinfo.
  do 4 (split; [done|]). split.
  - rewrite Hpol. intros [_ []]%elem_of_difference.
    by apply elem_of_singleton.
  - intros [_ Hg]%reachable_gated.
    apply served_inbound in Hs as (_ & _ & Hin).
    destruct (Hg Hin) as [_ Hb]. by rewrite Hbuf, Hb.
Qed.

(** C9 (as the code has it). A request from an identity that has no entry
    in [inbound_components] makes the routing lookup raise [KeyError]:
    nothing is logged at critical level, nothing is sent, the tables stay
    as they were, and the exception ends the loop, which begins no further
    iteration. *)
Theorem unknown_inbound_identity st r c e d m :
  served r st = Some inbound →
  ready_inbound r = Some [c; e; d] →
  ParseFromString d = Some m →
  inbound_components st !! c = None →
  let st' := (iteration r st).2 in
  (iteration r st).1 = Raise KeyError
  ∧ logged CRITICAL (trace st') = logged CRITICAL (trace st)
  ∧ sent inbound (trace st') = sent inbound (trace st)
  ∧ sent outbound (trace st') = sent outbound (trace st)
  ∧ ledger st' = ledger st
  ∧ buffer st' = buffer st
  ∧ available_outbound st' = available_outbound st
  ∧ poller st' = poller st
  ∧ ∀ (env : nat → Ready) i rest,
      env i = r →
      for_each (i :: rest) (λ j, iteration (env j)) st = (Raise KeyError, st').
Proof.
  intros Hs Hr Hp Hreg st'.
  destruct (inbound_event_unknown st r c e d)
    as (Hret & Hav & Hled & Hbuf & Hpol & Hout & Hinb & Hcrit); try done.
  rewrite Hp in Hret. fold st' in Hav, Hled, Hbuf, Hpol, Hout, Hinb, Hcrit.
  do 8 (split; [done|]).
  intros env i rest <-. rewrite for_each_cons. subst st'.
  by destruct (iteration (env i) st) as [[[]|x] st1]; simplify_eq/=.
Qed.

End BrokerProperties.

(** * The broker on the scenario of the test *)

Section BrokerScenario.
Import Wire Broker Scenario.

(** Closed facts about concrete states are decided by evaluation. *)
Ltac by_evaluation := apply (bool_decide_unpack _); vm_compute; exact I.

Lemma reachable_ready : reachable ready.
Proof. apply reachable_iteration, reachable_launch. repeat constructor. Qed.

(** C1 at the state in which the blocking producer waits for its reply:
    the ledger is not empty and the inbound socket is unregistered. *)
Lemma inbound_gating_witness :
  reachable blocked ∧ ledger blocked ≠ ∅ ∧ inbound ∉ poller blocked.
Proof.
  assert (Hr : reachable blocked) by apply reachable_iteration, reachable_ready.
  assert (Hl : ledger blocked ≠ ∅) by by_evaluation.
  split; [exact Hr|]. split; [exact Hl|].
  exact (proj1 (proj1 (inbound_gating blocked Hr) (or_introl Hl))).
Defined.


(** C3 when the blocking producer sends its first request to the ready
    worker. *)
Lemma blocking_dispatch_witness :
  served (request "inbound1" "key-0" "0") ready = Some inbound
  ∧ inbound_components ready !! "inbound1"
    = Some (mkRegistration "outbound" true "inbound1")
  ∧ ("outbound" ∈ available_outbound ready)
  ∧ ("outbound" ∉ available_outbound blocked)
  ∧ ledger blocked = <[ "key-0" := "inbound1" ]> (ledger ready)
  ∧ sent inbound (trace blocked) = sent inbound (trace ready)
  ∧ inbound ∉ poller blocked.
Proof.
  assert (Hs : served (request "inbound1" "key-0" "0") ready = Some inbound)
    by by vm_compute.
  assert (Hreg : inbound_components ready !! "inbound1"
                 = Some (mkRegistration "outbound" true "inbound1"))
    by by vm_compute.
  assert (Hav : "outbound" ∈ available_outbound ready) by by_evaluation.
  assert (Hp : ParseFromString (envelope "key-0" "0")
               = Some (BrokerMessage.Build "key-0" "0")) by by vm_compute.
  split; [exact Hs|]. split; [exact Hreg|]. split; [exact Hav|].
  pose proof (blocking_dispatch ready (request "inbound1" "key-0" "0")
                "inbound1" "" (envelope "key-0" "0")
                (BrokerMessage.Build "key-0" "0")
                (mkRegistration "outbound" true "inbound1")
                Hs eq_refl Hp Hreg ltac:(done) Hav eq_refl) as Hthm.
  cbv zeta in Hthm.
  destruct Hthm as (_ & _ & Hgone & _ & Hled & Hinb & Hpol).
  assert (Hnd : NoDup (available_outbound ready)) by by_evaluation.
  exact (conj (Hgone Hnd) (conj Hled (conj Hinb Hpol))).
Defined.

(** The blocking producer's request finds the worker busy with the other
    producer's. *)
Lemma buffering_has_no_slot_check_witness :
  served (request "inbound1" "key-0" "0") busy = Some inbound
  ∧ inbound_components busy !! "inbound1"
    = Some (mkRegistration "outbound" true "inbound1")
  ∧ ("outbound" ∉ available_outbound busy)
  ∧ reachable busy
  ∧ buffer busy = ∅
  ∧ buffer (iteration (request "inbound1" "key-0" "0") busy).2
    = {[ "outbound" := envelope "key-0" "0" ]}.
Proof.
  assert (Hs : served (request "inbound1" "key-0" "0") busy = Some inbound)
    by by vm_compute.
  assert (Hreg : inbound_components busy !! "inbound1"
                 = Some (mkRegistration "outbound" true "inbound1"))
    by by vm_compute.
  assert (Hav : "outbound" ∉ available_outbound busy) by by_evaluation.
  assert (Hp : ParseFromString (envelope "key-0" "0")
               = Some (BrokerMessage.Build "key-0" "0")) by by vm_compute.
  assert (Hr : reachable busy) by apply reachable_iteration, reachable_ready.
  split; [exact Hs|]. split; [exact Hreg|]. split; [exact Hav|].
  split; [exact Hr|].
  pose proof (buffering_has_no_slot_check busy
                (request "inbound1" "key-0" "0")
                "inbound1" "" (envelope "key-0" "0")
                (BrokerMessage.Build "key-0" "0")
                (mkRegistration "outbound" true "inbound1")
                Hs eq_refl Hp Hreg ltac:(done) Hav) as Hthm.
  cbv zeta in Hthm. destruct Hthm as (_ & _ & _ & _ & _ & Hreach).
  exact (Hreach Hr).
Defined.

(** C9 fails on the code: a request from an unregistered identity ends
    [start] with [KeyError] after the second of twenty iterations, and
    nothing was logged at critical level. *)
Lemma unknown_identity_stops_the_loop :
  inbound_components broker !! "stranger" = None
  ∧ (start with_stranger broker).1 = Raise KeyError
  ∧ polls (trace (start with_stranger broker).2) = 2
  ∧ messages broker = 20%Z
  ∧ logged CRITICAL (trace (start with_stranger broker).2) = [].
Proof. repeat split; by vm_compute. Qed.

(** The amended C9 on that request. *)
Lemma unknown_inbound_identity_witness :
  served (request "stranger" "key-9" "9") ready = Some inbound
  ∧ inbound_components ready !! "stranger" = None
  ∧ (iteration (request "stranger" "key-9" "9") ready).1 = Raise KeyError
  ∧ logged CRITICAL
      (trace (iteration (request "stranger" "key-9" "9") ready).2)
    = logged CRITICAL (trace ready).
Proof.
  assert (Hs : served (request "stranger" "key-9" "9") ready = Some inbound)
    by by vm_compute.
  assert (Hreg : inbound_components ready !! "stranger" = None)
    by by vm_compute.
  assert (Hp : ParseFromString (envelope "key-9" "9")
               = Some (BrokerMessage.Build "key-9" "9")) by by vm_compute.
  split; [exact Hs|]. split; [exact Hreg|].
  pose proof (unknown_inbound_identity ready
                (request "stranger" "key-9" "9")
                "stranger" "" (envelope "key-9" "9")
                (BrokerMessage.Build "key-9" "9") Hs eq_refl Hp Hreg) as Hthm.
  cbv zeta in Hthm. destruct Hthm as (Hret & Hcrit & _).
  exact (conj Hret Hcrit).
Defined.

(** C2 fails on the code for a request that went through the buffer.  Both
    producers of the test send their first request before the worker has
    echoed one: the request of [inbound1], registered as blocking, finds the
    worker busy and is buffered; the drain hands it to the worker without a
    ledger entry; the worker echoes it under the same key, the key is not
    in the ledger, and [inbound1] is sent nothing.  Every poll of the run
    found a message on a registered socket, no iteration raised, and the
    only frame ever sent on the inbound socket is the acknowledgement of
    [inbound2]. *)
Example buffered_blocking_request_unanswered :
  let run := start through_the_buffer (broker_for 5) in
  inbound_components (broker_for 5) !! "inbound1"
  = Some (mkRegistration "outbound" true "inbound1")
  ∧ run.1 = Return tt
  ∧ logged CRITICAL (trace run.2) = []
  ∧ received inbound (trace run.2)
    = [["inbound2"; ""; envelope "key-1" "1"];
       ["inbound1"; ""; envelope "key-0" "0"]]
  ∧ sent outbound (trace run.2)
    = [["outbound"; ""; envelope "key-1" "1"];
       ["outbound"; ""; envelope "key-0" "0"]]
  ∧ received outbound (trace run.2)
    = [["outbound"; ""; envelope "0" "READY"];
       ["outbound"; ""; envelope "key-1" "1"];
       ["outbound"; ""; envelope "key-0" "0"]]
  ∧ sent inbound (trace run.2) = [["inbound2"; ""; "1"]]
  ∧ ledger run.2 = ∅
  ∧ buffer run.2 = ∅
  ∧ available_outbound run.2 = ["outbound"]
  ∧ inbound ∈ poller run.2.
Proof.
  cbv zeta. repeat split; try by vm_compute.
  all: by_evaluation.
Qed.

(** C8 fails on the code: after the three iterations of a full round trip
    [start] returns with both sockets still open, and a run that raises
    begins fewer iterations than [messages]. *)
Lemma start_leaves_the_sockets_open :
  ((start round_trip (broker_for 3)).1 = Return tt
   ∧ polls (trace (start round_trip (broker_for 3)).2) = 3
   ∧ (inbound ∉ closed (start round_trip (broker_for 3)).2)
   ∧ (outbound ∉ closed (start round_trip (broker_for 3)).2)
   ∧ closes (trace (start round_trip (broker_for 3)).2) = [])
  ∧ (messages (broker_for 3) = 3%Z
     ∧ polls (trace (start with_stranger (broker_for 3)).2) = 2).
Proof.
  repeat split; try by vm_compute.
  all: by_evaluation.
Qed.

End BrokerScenario.

(** * Properties of the push-pull service *)

Ltac service_unfold :=
  unfold PushPullService._translate_to_broker,
    PushPullService._translate_from_broker, PushPullService.fresh_key,
    PushPullService.cache_set, PushPullService.cache_get,
    PushPullService.parse_cached, PushPullService.serve_one,
    PushPullService.fan_out, PushPullService.broker_recv,
    PushPullService.pull_recv, PushPullService.call_handle_feedback,
    PushPullService.call_reply_feedback, PushPullService.send,
    PushPullService.logger, parse, M_bind, M_ret, raise, get, gets, modify
    in *;
  cbn in *.

Section TranslationProperties.
Import PushPullService.
Context {U : Type} `{Codec BrokerMessage.t} `{Codec PalmMessage.t}.

(** C6. Every message is given the next value of [uuid4] as its key, a
    value that (with [uuid4] free of collisions) no earlier or later
    message gets.  Configured as PALM, the service stores the message bytes
    in the cache under that key and the envelope's payload is the payload
    parsed from the client envelope; otherwise the envelope's payload is
    the message itself and the cache is left alone. *)
Theorem translate_to_broker_spec (env : Env) (st : State U) message_data :
  let key := uuid4 env (uuids st) in
  let result := _translate_to_broker env message_data st in
  uuids result.2 = S (uuids st)
  ∧ (Inj (=) (=) (uuid4 env) →
     ∀ n, n ≠ uuids st → uuid4 env n ≠ key)
  ∧ (palm st = false →
     result.1
     = Return (SerializeToString (BrokerMessage.Build key message_data))
     ∧ cache result.2 = cache st)
  ∧ (∀ palm_message c,
       palm st = true →
       ParseFromString message_data = Some palm_message →
       cache st = Some c →
       result.1
       = Return (SerializeToString
                   (BrokerMessage.Build key
                      (PalmMessage.payload palm_message)))
       ∧ cache result.2 = Some (<[ key := message_data ]> c)).
Proof.
  intros key result. subst key result.
  destruct st as [nm pl ch ms u ids br pr cl tr]; cbn.
  split; [|split; [|split]].
  - service_unfold. destruct pl; cbn; [|done].
    destruct (ParseFromString message_data); cbn; [|done].
    by destruct ch.
  - intros Hinj n Hn Heq. by apply Hinj in Heq.
  - intros ->. by service_unfold.
  - intros pm c -> Hp ->. service_unfold. by rewrite Hp.
Qed.

(** C5 (as the code has it). For a PALM component the bytes returned are
    the cached client envelope with its payload replaced by the payload of
    the broker's response, serialized again, every other field being the
    original's; for any other component they are the response's payload.
    Nothing is deleted from the cache: the service is left exactly as it
    was, the entry under the key included. *)
Theorem translate_from_broker_spec (st : State U) message_data broker_message :
  ParseFromString message_data = Some broker_message →
  (palm st = false →
   _translate_from_broker message_data st
   = (Return (BrokerMessage.payload broker_message), st))
  ∧ (∀ c original palm_message,
       palm st = true →
       cache st = Some c →
       c !! BrokerMessage.key broker_message = Some original →
       ParseFromString original = Some palm_message →
       let reply :=
         PalmMessage.set_payload (BrokerMessage.payload broker_message)
           palm_message in
       _translate_from_broker message_data st
       = (Return (SerializeToString reply), st)
       ∧ (ParseFromString (SerializeToString reply) = Some reply →
          ∃ returned,
            ParseFromString (SerializeToString reply) = Some returned
            ∧ PalmMessage.payload returned
              = BrokerMessage.payload broker_message
            ∧ PalmMessage.client returned = PalmMessage.client palm_message
            ∧ PalmMessage.pipeline returned
              = PalmMessage.pipeline palm_message
            ∧ PalmMessage.function returned
              = PalmMessage.function palm_message
            ∧ PalmMessage.stage returned = PalmMessage.stage palm_message
            ∧ PalmMessage.cache_key returned
              = PalmMessage.cache_key palm_message
            ∧ PalmMessage.metadata returned
              = PalmMessage.metadata palm_message)).
Proof.
  intros Hb. split.
  - intros Hpalm. service_unfold. by rewrite Hb, Hpalm.
  - intros c original pm Hpalm Hc Hl Hp reply. split.
    + service_unfold. rewrite Hb, Hpalm, Hc. cbn. by rewrite Hl, Hp.
    + intros Hround. by exists reply.
Qed.

End TranslationProperties.

(** The monad laws, for running a program step by step. *)
Lemma bind_ret {S A B} (a : A) (k : A → M S B) s : M_bind (M_ret a) k s = k a s.
Proof. done. Qed.

Lemma bind_modify {S B} (f : S → S) (k : unit → M S B) s :
  M_bind (modify f) k s = k tt (f s).
Proof. done. Qed.

Lemma bind_gets {S A B} (f : S → A) (k : A → M S B) s :
  M_bind (gets f) k s = k (f s) s.
Proof. done. Qed.

Lemma bind_assoc {S A B C} (m : M S A) (k1 : A → M S B) (k2 : B → M S C) s :
  M_bind (M_bind m k1) k2 s = M_bind m (λ a, M_bind (k1 a) k2) s.
Proof. unfold M_bind. by destruct (m s) as [[a|e] s']. Qed.

Ltac monad_step :=
  first [ rewrite bind_assoc | rewrite bind_modify | rewrite bind_gets
        | rewrite bind_ret ].

Section ScatterProperties.
Import PushPullService.
Context {U : Type} `{Overrides U}.
Variable env : Env.

(** The inner loop: one push, one pull and one call of [handle_feedback]
    per scattered message, in that order, and nothing else. *)
Lemma fan_out_loop (xs : list bytes) (st : State U) :
  for_each xs (fan_out env) st
  = (Return tt,
     mkState (name st) (palm st) (cache st) (messages st)
       (fed_back (responses env (pull_received st) (length xs)) (user st))
       (uuids st) (broker_received st) (pull_received st + length xs)
       (closed st)
       (trace st
        ++ concat (zip_with pool_round xs
                     (responses env (pull_received st) (length xs))))).
Proof.
  revert st. induction xs as [|x xs IH]; intros st.
  - destruct st; cbn. by rewrite app_nil_r, Nat.add_0_r.
  - destruct st; cbn [for_each length]. unfold M_bind at 1.
    unfold fan_out at 1. service_unfold. rewrite IH. cbn.
    rewrite <- !app_assoc. cbn. by rewrite Nat.add_succ_r.
Qed.

(** One pass of the outer loop. *)
Lemma serve_one_eq (st : State U) :
  let message_data := from_broker env (broker_received st) in
  let scattered := scatter message_data in
  let rs := responses env (pull_received st) (length scattered) in
  let u := fed_back rs (user st) in
  serve_one env st
  = (Return tt,
     mkState (name st) (palm st) (cache st) (messages st) u (uuids st)
       (S (broker_received st)) (pull_received st + length scattered)
       (closed st)
       (trace st
        ++ [Log DEBUG "Component {} blocked waiting for broker";
            Recv broker message_data;
            Log DEBUG "Got message from broker"]
        ++ concat (zip_with pool_round scattered rs)
        ++ [ReplyFeedback (reply_feedback u);
            Send broker (reply_feedback u)])).
Proof.
  destruct st; cbn.
  unfold serve_one, broker_recv, call_reply_feedback, send, logger, M_bind,
    M_ret, gets, modify; cbn.
  rewrite fan_out_loop. cbn. by rewrite <- !app_assoc.
Qed.

Lemma pool_rounds_observed (xs rs : list bytes) :
  sent broker (concat (zip_with pool_round xs rs)) = []
  ∧ received broker (concat (zip_with pool_round xs rs)) = []
  ∧ replies (concat (zip_with pool_round xs rs)) = []
  ∧ sent push (concat (zip_with pool_round xs rs)) = take (length rs) xs
  ∧ received pull (concat (zip_with pool_round xs rs)) = take (length xs) rs.
Proof.
  revert rs. induction xs as [|x xs IH]; intros [|r rs]; try done.
  destruct (IH rs) as (? & ? & ? & Hp & Hr). cbn.
  repeat split; try done; cbn; by f_equal.
Qed.

Lemma length_responses k n : length (responses env k n) = n.
Proof. unfold responses. by rewrite length_map, length_seq. Qed.

(** The outer loop is [serve_one], as many times as there are indices. *)
Lemma serve_loop {A} (indices : list A) (st : State U) :
  for_each indices (λ _, serve_one env) st
  = (Return tt, Nat.iter (length indices) (λ s, (serve_one env s).2) st).
Proof.
  revert st. induction indices as [|i indices IH]; intros st; [done|].
  cbn [for_each length]. unfold M_bind. rewrite serve_one_eq. cbv zeta.
  rewrite IH, Nat.iter_succ_r. by rewrite serve_one_eq.
Qed.

Lemma iterated_serving_counts n (st : State U) :
  let final := Nat.iter n (λ s, (serve_one env s).2) st in
  broker_received final = broker_received st + n
  ∧ length (received broker (trace final))
    = length (received broker (trace st)) + n
  ∧ length (replies (trace final)) = length (replies (trace st)) + n
  ∧ length (sent broker (trace final))
    = length (sent broker (trace st)) + n.
Proof.
  cbv zeta. induction n as [|n IH].
  - cbn. repeat split; lia.
  - rewrite Nat.iter_succ.
    set (s := Nat.iter n (λ s, (serve_one env s).2) st) in *.
    destruct IH as (Hb & Hr & Hrep & Hs).
    rewrite serve_one_eq. cbv zeta. cbn [snd broker_received trace].
    unfold received, replies, sent in *.
    rewrite !omap_app, !length_app.
    destruct (pool_rounds_observed
                (scatter (from_broker env (broker_received s)))
                (responses env (pull_received s)
                   (length (scatter (from_broker env (broker_received s))))))
      as (Hs0 & Hr0 & Hrep0 & _).
    unfold received, replies, sent in *.
    rewrite Hs0, Hr0, Hrep0. simpl. rewrite Hb, Hr, Hrep, Hs.
    repeat split; lia.
Qed.

(** C7. For each message from the broker, every element of [scatter]
    applied to the message is pushed to the pool, then exactly one response
    is pulled and handed to [handle_feedback] before the next element is
    pushed; after the last one a single [reply_feedback()] value is sent to
    the broker.  [start] does this for [messages] messages and no more. *)
Theorem scatter_loop `{Codec BrokerMessage.t} (st : State U) :
  (∀ s : State U,
     let message_data := from_broker env (broker_received s) in
     let scattered := scatter message_data in
     let rs := responses env (pull_received s) (length scattered) in
     let s' := (serve_one env s).2 in
     (serve_one env s).1 = Return tt
     ∧ trace s'
       = (trace s
          ++ [Log DEBUG "Component {} blocked waiting for broker";
              Recv broker message_data;
              Log DEBUG "Got message from broker"]
          ++ concat (zip_with pool_round scattered rs)
          ++ [ReplyFeedback (reply_feedback (user s'));
              Send broker (reply_feedback (user s'))])%list
     ∧ length rs = length scattered
     ∧ user s' = fed_back rs (user s)
     ∧ sent push (trace s') = (sent push (trace s) ++ scattered)%list
     ∧ received pull (trace s') = (received pull (trace s) ++ rs)%list
     ∧ broker_received s' = S (broker_received s)
     ∧ pull_received s' = pull_received s + length scattered)
  ∧ (let n := Z.to_nat (messages st) in
     let final := (start env st).2 in
     (start env st).1 = Return tt
     ∧ final
       = Nat.iter n (λ s, (serve_one env s).2)
           (emit (Send broker
                    (SerializeToString (BrokerMessage.Build "0" "0")))
              (emit (Log INFO "Launch component {}") st))
     ∧ length (received broker (trace final))
       = length (received broker (trace st)) + n
     ∧ length (replies (trace final)) = length (replies (trace st)) + n
     ∧ length (sent broker (trace final))
       = length (sent broker (trace st)) + 1 + n).
Proof.
  split.
  - intros s. cbv zeta. rewrite serve_one_eq. cbv zeta.
    cbn [fst snd trace user broker_received pull_received].
    pose proof (length_responses (pull_received s)
                  (length (scatter (from_broker env (broker_received s)))))
      as Hlen.
    destruct (pool_rounds_observed
                (scatter (from_broker env (broker_received s)))
                (responses env (pull_received s)
                   (length (scatter (from_broker env (broker_received s))))))
      as (_ & _ & _ & Hpush & Hpull).
    rewrite take_ge in Hpush by (rewrite Hlen; lia).
    rewrite take_ge in Hpull by (rewrite Hlen; lia).
    repeat split; try done.
    + unfold sent in *. rewrite !omap_app, Hpush. simpl.
      by rewrite app_nil_r.
    + unfold received in *. rewrite !omap_app, Hpull. simpl.
      by rewrite app_nil_r.
  - cbv zeta.
    assert (Hstart :
      start env st
      = (Return tt,
         Nat.iter (Z.to_nat (messages st)) (λ s, (serve_one env s).2)
           (emit (Send broker
                    (SerializeToString (BrokerMessage.Build "0" "0")))
              (emit (Log INFO "Launch component {}") st)))).
    { unfold start, logger, send. repeat monad_step.
      rewrite serve_loop. unfold range. rewrite length_seq.
      by destruct st. }
    rewrite Hstart. cbn [fst snd]. do 2 (split; [done|]).
    destruct (iterated_serving_counts (Z.to_nat (messages st))
                (emit (Send broker
                         (SerializeToString (BrokerMessage.Build "0" "0")))
                   (emit (Log INFO "Launch component {}") st)))
      as (_ & Hr & Hrep & Hs).
    rewrite Hr, Hrep, Hs. destruct st; simpl.
    unfold received, replies, sent. rewrite !omap_app, !length_app. simpl.
    repeat split; lia.
Qed.

End ScatterProperties.

(** C10. What the service sends to the broker once the fan-out of a message
    is over is the value [reply_feedback()] returned, as it is: under the
    methods of [PushPullService] itself the single byte ["0"], whatever
    the request was.  No Broker envelope is built around it, and it does not
    parse as one, so it carries no key of the request. *)
Theorem reply_feedback_sent_raw {U} `{PushPullService.Overrides U}
    (env : PushPullService.Env) (s : PushPullService.State U) :
  let rs :=
    PushPullService.responses env (PushPullService.pull_received s)
      (length (PushPullService.scatter
                 (PushPullService.from_broker env
                    (PushPullService.broker_received s)))) in
  let reply :=
    PushPullService.reply_feedback
      (PushPullService.fed_back rs (PushPullService.user s)) in
  let s' := (PushPullService.serve_one env s).2 in
  PushPullService.sent PushPullService.broker (PushPullService.trace s')
  = (PushPullService.sent PushPullService.broker (PushPullService.trace s)
     ++ [reply])%list
  ∧ PushPullService.replies (PushPullService.trace s')
    = (PushPullService.replies (PushPullService.trace s) ++ [reply])%list
  ∧ last (PushPullService.trace s')
    = Some (PushPullService.Send PushPullService.broker reply)
  ∧ (∀ env0 (s0 : PushPullService.State unit),
       PushPullService.sent PushPullService.broker
         (PushPullService.trace
            (@PushPullService.serve_one unit env0
               PushPullService.defaults s0).2)
       = (PushPullService.sent PushPullService.broker
            (PushPullService.trace s0) ++ ["0"])%list)
  ∧ @ParseFromString BrokerMessage.t Wire.broker_codec "0" = None.
Proof.
  cbv zeta.
  assert (Hsent : ∀ V (O : PushPullService.Overrides V) e (x : PushPullService.State V),
    PushPullService.sent PushPullService.broker
      (PushPullService.trace (PushPullService.serve_one e x).2)
    = (PushPullService.sent PushPullService.broker (PushPullService.trace x)
       ++ [PushPullService.reply_feedback
             (PushPullService.fed_back
                (PushPullService.responses e (PushPullService.pull_received x)
                   (length (PushPullService.scatter
                      (PushPullService.from_broker e
                         (PushPullService.broker_received x)))))
                (PushPullService.user x))])%list).
  { intros V O e x. rewrite serve_one_eq. cbv zeta.
    cbn [snd PushPullService.trace].
    unfold PushPullService.sent. rewrite !omap_app.
    destruct (pool_rounds_observed
                (PushPullService.scatter
                   (PushPullService.from_broker e
                      (PushPullService.broker_received x)))
                (PushPullService.responses e (PushPullService.pull_received x)
                   (length (PushPullService.scatter
                      (PushPullService.from_broker e
                         (PushPullService.broker_received x))))))
      as (Hs0 & _).
    unfold PushPullService.sent in Hs0. rewrite Hs0. by simpl. }
  split; [apply Hsent|]. split; [|split; [|split]].
  - rewrite serve_one_eq. cbv zeta. cbn [snd PushPullService.trace].
    unfold PushPullService.replies. rewrite !omap_app.
    destruct (pool_rounds_observed
                (PushPullService.scatter
                   (PushPullService.from_broker env
                      (PushPullService.broker_received s)))
                (PushPullService.responses env (PushPullService.pull_received s)
                   (length (PushPullService.scatter
                      (PushPullService.from_broker env
                         (PushPullService.broker_received s))))))
      as (_ & _ & Hrep0 & _).
    unfold PushPullService.replies in Hrep0. rewrite Hrep0. by simpl.
  - rewrite serve_one_eq. cbv zeta. cbn [snd PushPullService.trace].
    rewrite !app_assoc. rewrite last_snoc || rewrite last_app. done.
  - intros env0 s0. by rewrite Hsent.
  - by vm_compute.
Qed.

(** * The service on concrete messages *)

Section ServiceScenarioFacts.
Import Wire PushPullService ServiceScenario.

(** C6 on the client envelope of the PALM round trip: the first key drawn
    is ["0"], the envelope is cached under it, and the broker gets the
    payload ["hello"]; a service for binary messages wraps the bytes as
    they are and has no cache to write to. *)
Lemma translate_to_broker_spec_witness :
  Inj (=) (=) (uuid4 env)
  ∧ palm palm_service = true
  ∧ ParseFromString (SerializeToString client_envelope)
    = Some client_envelope
  ∧ cache palm_service = Some ∅
  ∧ (_translate_to_broker env (SerializeToString client_envelope)
       palm_service).1
    = Return (SerializeToString (BrokerMessage.Build "0" "hello"))
  ∧ cache translated
    = Some (<[ "0" := SerializeToString client_envelope ]> ∅)
  ∧ (∀ n, n ≠ 0 → uuid4 env n ≠ "0")
  ∧ palm binary_service = false
  ∧ (_translate_to_broker env "raw" binary_service).1
    = Return (SerializeToString (BrokerMessage.Build "0" "raw"))
  ∧ cache (_translate_to_broker env "raw" binary_service).2 = None.
Proof.
  assert (Hinj : Inj (=) (=) (uuid4 env)) by exact pretty_nat_inj.
  assert (Hp : ParseFromString (SerializeToString client_envelope)
               = Some client_envelope) by by vm_compute.
  pose proof (translate_to_broker_spec env palm_service
                (SerializeToString client_envelope)) as Hthm.
  cbv zeta in Hthm. destruct Hthm as (_ & Hfresh & _ & Hpalm).
  destruct (Hpalm client_envelope ∅ eq_refl Hp eq_refl) as [Hret Hcache].
  pose proof (translate_to_broker_spec env binary_service "raw") as Hbin.
  cbv zeta in Hbin. destruct Hbin as (_ & _ & Hbin & _).
  destruct (Hbin eq_refl) as [Hraw Hsame].
  split; [exact Hinj|]. split; [reflexivity|]. split; [exact Hp|].
  split; [reflexivity|]. split; [exact Hret|]. split; [exact Hcache|].
  split; [exact (Hfresh Hinj)|]. split; [reflexivity|].
  split; [exact Hraw|exact Hsame].
Defined.

(** C5 fails on the code: after the reply is translated the cache still
    holds the client envelope under the key. *)
Lemma translate_from_broker_keeps_the_entry :
  cache translated = Some {[ "0" := SerializeToString client_envelope ]}
  ∧ (_translate_from_broker response translated).1
    = Return (SerializeToString
                (PalmMessage.set_payload "HELLO" client_envelope))
  ∧ cache (_translate_from_broker response translated).2
    = Some {[ "0" := SerializeToString client_envelope ]}
  ∧ (∀ c, cache (_translate_from_broker response translated).2 = Some c →
          c !! "0" ≠ None).
Proof.
  assert (Hc : cache (_translate_from_broker response translated).2
               = Some {[ "0" := SerializeToString client_envelope ]})
    by by vm_compute.
  repeat split; try by vm_compute.
  intros c Heq. rewrite Hc in Heq. injection Heq as <-.
  by rewrite lookup_singleton_eq.
Qed.

(** The amended C5 on the same reply: the caller gets the client envelope
    with the payload ["HELLO"], every other field as it was sent. *)
Lemma translate_from_broker_spec_witness :
  ParseFromString response = Some (BrokerMessage.Build "0" "HELLO")
  ∧ palm translated = true
  ∧ _translate_from_broker response translated
    = (Return (SerializeToString
                 (PalmMessage.set_payload "HELLO" client_envelope)),
       translated)
  ∧ ∃ returned,
      ParseFromString
        (SerializeToString (PalmMessage.set_payload "HELLO" client_envelope))
      = Some returned
      ∧ PalmMessage.payload returned = "HELLO"
      ∧ PalmMessage.client returned = "c1"
      ∧ PalmMessage.pipeline returned = "p".
Proof.
  assert (Hb : ParseFromString response
               = Some (BrokerMessage.Build "0" "HELLO")) by by vm_compute.
  assert (Hc : cache translated
               = Some {[ "0" := SerializeToString client_envelope ]})
    by by vm_compute.
  assert (Hp : ParseFromString (SerializeToString client_envelope)
               = Some client_envelope) by by vm_compute.
  assert (Hround :
    ParseFromString
      (SerializeToString (PalmMessage.set_payload "HELLO" client_envelope))
    = Some (PalmMessage.set_payload "HELLO" client_envelope))
    by by vm_compute.
  destruct (translate_from_broker_spec translated response
              (BrokerMessage.Build "0" "HELLO") Hb) as [_ Hpalm].
  specialize (Hpalm _ (SerializeToString client_envelope) client_envelope
                eq_refl Hc (lookup_singleton_eq _ _) Hp).
  cbv zeta in Hpalm. destruct Hpalm as [Hret Hfields].
  split; [exact Hb|]. split; [reflexivity|]. split; [exact Hret|].
  destruct (Hfields Hround) as (returned & Hparse & Hpay & Hcl & Hpipe & _).
  exists returned. by repeat split.
Defined.

(** Scenario 3 of the specification: [scatter] yields three copies of the
    message; the pool gets three pushes, each answered before the next, and
    the broker one reply. *)
Example scatter_three_copies :
  let s := @__init__ unit "server" false None 1 tt in
  let s' := (@start unit env broker_codec MyMaster s).2 in
  (@start unit env broker_codec MyMaster s).1 = Return tt
  ∧ trace s'
    = [Log INFO "Launch component {}";
       Send broker (SerializeToString (BrokerMessage.Build "0" "0"));
       Log DEBUG "Component {} blocked waiting for broker";
       Recv broker "m";
       Log DEBUG "Got message from broker";
       Send push "m"; Recv pull "0"; HandleFeedback "0";
       Send push "m"; Recv pull "1"; HandleFeedback "1";
       Send push "m"; Recv pull "2"; HandleFeedback "2";
       ReplyFeedback "0";
       Send broker "0"].
Proof. by vm_compute. Qed.

End ServiceScenarioFacts.

(** * Further properties of the broker *)

Section BrokerConduct.
Import Broker BrokerInput.
Context `{Codec BrokerMessage.t}.

(** A producer that does not block, routed to an available worker: the
    list of available workers loses the first occurrence of the worker and
    nothing else (so that a worker listed once is no longer available),
    the worker gets the envelope, the producer is acknowledged with [b'1']
    at once, and the inbound socket stays registered with nothing recorded
    in the ledger. *)
Theorem nonblocking_dispatch st r c e d m reg :
  served r st = Some inbound →
  ready_inbound r = Some [c; e; d] →
  ParseFromString d = Some m →
  inbound_components st !! c = Some reg →
  route reg ≠ "" →
  route reg ∈ available_outbound st →
  block reg = false →
  (iteration r st).1 = Return tt
  ∧ (∃ before after,
       available_outbound st = (before ++ route reg :: after)%list
       ∧ (route reg ∉ before)
       ∧ available_outbound (iteration r st).2 = (before ++ after)%list)
  ∧ (NoDup (available_outbound st) →
     route reg ∉ available_outbound (iteration r st).2)
  ∧ sent outbound (trace (iteration r st).2)
    = (sent outbound (trace st) ++ [[route reg; e; SerializeToString m]])%list
  ∧ sent inbound (trace (iteration r st).2)
    = (sent inbound (trace st) ++ [[c; e; "1"]])%list
  ∧ ledger (iteration r st).2 = ledger st
  ∧ buffer (iteration r st).2 = buffer st
  ∧ poller (iteration r st).2 = poller st.
Proof.
  intros Hs Hr Hp Hreg Hroute Hav Hb.
  destruct (list_remove_first_split _ _ Hav) as (before & after & Hl & Hnot & Hrm).
  pose proof (list_remove_first_NoDup (route reg) (available_outbound st))
    as Hnd.
  assert (Hav' : available_outbound (iteration r st).2
                 = list_remove_first (route reg) (available_outbound st)).
  { apply served_inbound in Hs as (Hno & Hev & Hin).
    clear Hl Hnot Hrm Hnd. iteration_cases r st; done. }
  split; [|split; [|split]].
  - apply served_inbound in Hs as (Hno & Hev & Hin).
    clear Hl Hnot Hrm Hnd Hav'. iteration_cases r st; done.
  - exists before, after. by rewrite Hav', Hrm.
  - intros ?. rewrite Hav'. by apply Hnd.
  - apply served_inbound in Hs as (Hno & Hev & Hin).
    clear Hl Hnot Hrm Hnd Hav'.
    iteration_cases r st; repeat split; try done; by trace_norm.
Qed.

(** A producer registered without a route is acknowledged with [b'1'] and
    that is all: nothing goes to a worker, be one available or not, and no
    table and no registration with the poller changes. *)
Theorem unrouted_request_acknowledged st r c e d m reg :
  served r st = Some inbound →
  ready_inbound r = Some [c; e; d] →
  ParseFromString d = Some m →
  inbound_components st !! c = Some reg →
  route reg = "" →
  (iteration r st).1 = Return tt
  ∧ sent inbound (trace (iteration r st).2)
    = (sent inbound (trace st) ++ [[c; e; "1"]])%list
  ∧ sent outbound (trace (iteration r st).2) = sent outbound (trace st)
  ∧ available_outbound (iteration r st).2 = available_outbound st
  ∧ ledger (iteration r st).2 = ledger st
  ∧ buffer (iteration r st).2 = buffer st
  ∧ poller (iteration r st).2 = poller st.
Proof.
  intros Hs Hr Hp Hreg Hroute.
  apply served_inbound in Hs as (Hno & Hev & Hin).
  iteration_cases r st; repeat split; try done; by trace_norm.
Qed.

(** A message of the wrong shape ends the iteration with an exception after
    it was taken from the socket: [ValueError] unless it has exactly three
    frames, [DecodeError] when the third does not parse.  Nothing was sent
    and no table or registration changed by then. *)
Theorem malformed_message_raises st r s frames :
  served r st = Some s →
  pending r s = Some frames →
  match frames with
  | [_; _; d] => ParseFromString (A:=BrokerMessage.t) d = None
  | _ => True
  end →
  (iteration r st).1
  = Raise match frames with [_; _; _] => DecodeError | _ => ValueError end
  ∧ received s (trace (iteration r st).2)
    = (received s (trace st) ++ [frames])%list
  ∧ sent inbound (trace (iteration r st).2) = sent inbound (trace st)
  ∧ sent outbound (trace (iteration r st).2) = sent outbound (trace st)
  ∧ available_outbound (iteration r st).2 = available_outbound st
  ∧ ledger (iteration r st).2 = ledger st
  ∧ buffer (iteration r st).2 = buffer st
  ∧ poller (iteration r st).2 = poller st.
Proof.
  intros Hs Hpend Hbad. destruct s; cbn in Hpend.
  - apply served_inbound in Hs as (Hno & Hev & Hin).
    iteration_cases r st; simplify_eq; repeat split; try done; by trace_norm.
  - apply served_outbound in Hs as [Ho _].
    assert (Hev := proj2 (outbound_in_event r (poller st))
                     (conj Ho (mk_is_Some _ _ Hpend))).
    iteration_cases r st; simplify_eq; repeat split; try done; by trace_norm.
Qed.

End BrokerConduct.

Section BrokerInvariants.
Import Broker BrokerInput.
Context `{Codec BrokerMessage.t}.

(** *** What the loop keeps true *)

Lemma size_delete_lookup {A} (m : gmap string A) k v :
  m !! k = Some v → S (size (delete k m)) = size m.
Proof.
  intros Hl. rewrite map_size_delete, Hl.
  assert (size m ≠ 0); [|lia].
  intros ->%map_size_empty_inv. by rewrite lookup_empty in Hl.
Qed.

(** One slot in all: the ledger and the buffer never hold more than one
    entry between them. *)
Lemma iteration_single_slot r st :
  gated st →
  (size (ledger st) + size (buffer st) ≤ 1)%nat →
  (size (ledger (iteration r st).2) + size (buffer (iteration r st).2)
   ≤ 1)%nat.
Proof.
  intros [_ Hg] Hsz.
  assert (Hev : inbound ∈ filter (λ s, is_Some (pending r s)) (poller st) →
                ledger st = ∅ ∧ buffer st = ∅)
    by (intros [? _]%inbound_in_event; auto).
  clear Hg. iteration_cases r st;
    rewrite ?map_size_delete; repeat case_match; simplify_eq/=;
    try lia.
  all: match goal with
       | Hin : _ |- _ => destruct (Hev Hin) as [-> ->]
       end;
       rewrite map_size_insert, lookup_empty, map_size_empty; cbn; lia.
Qed.

(** Producers are answered on credit, too: every frame sent on the inbound
    socket, and every entry of the ledger or the buffer, stands against a
    request taken from that socket. *)
Lemma iteration_producer_credit r st :
  gated st →
  (length (sent inbound (trace st)) + size (ledger st) + size (buffer st)
   ≤ length (received inbound (trace st)))%nat →
  (length (sent inbound (trace (iteration r st).2))
   + size (ledger (iteration r st).2) + size (buffer (iteration r st).2)
   ≤ length (received inbound (trace (iteration r st).2)))%nat.
Proof.
  intros [_ Hg] Hsz.
  assert (Hev : inbound ∈ filter (λ s, is_Some (pending r s)) (poller st) →
                ledger st = ∅ ∧ buffer st = ∅)
    by (intros [? _]%inbound_in_event; auto).
  clear Hg. iteration_cases r st; trace_norm; simpl;
    repeat match goal with
           | Hl : _ |- _ =>
               first [ apply size_delete_lookup in Hl
                     | apply map_size_delete_None in Hl ]
           end;
    try lia.
  all: match goal with
       | Hin : _ |- _ => destruct (Hev Hin) as [-> ->]
       end;
       rewrite ?map_size_insert, ?lookup_empty, ?map_size_empty in *; cbn;
       lia.
Qed.

(** The inbound socket is registered only after a worker was heard. *)
Lemma iteration_worker_first r st :
  (inbound ∈ poller st → received outbound (trace st) ≠ []) →
  inbound ∈ poller (iteration r st).2 →
  received outbound (trace (iteration r st).2) ≠ [].
Proof.
  intros Hw. iteration_cases r st; trace_norm; simpl; intros Hin;
    try (by apply elem_of_difference in Hin as [_ []];
         apply elem_of_singleton);
    try (by intros [_ ?]%app_eq_nil);
    try (by intros [? _]%app_eq_nil; apply Hw);
    by rewrite ?app_nil_r; apply Hw.
Qed.

End BrokerInvariants.

Section BrokerRuns.
Import Broker BrokerInput.
Context `{Codec BrokerMessage.t}.

Lemma configured_fresh st :
  configured st →
  ledger st = ∅ ∧ buffer st = ∅ ∧ poller st = {[ outbound ]} ∧ trace st = [].
Proof. by induction 1. Qed.

Lemma reachable_accounts st :
  reachable st →
  gated st
  ∧ (size (ledger st) + size (buffer st) ≤ 1)%nat
  ∧ (length (sent inbound (trace st)) + size (ledger st) + size (buffer st)
     ≤ length (received inbound (trace st)))%nat
  ∧ (inbound ∈ poller st → received outbound (trace st) ≠ []).
Proof.
  induction 1 as [st Hc|st r Hr (Hg & Hslot & Hp & Hf)].
  - split; [by apply configured_gated|].
    destruct (configured_fresh st Hc) as (Hl & Hb & Hpol & Htr).
    destruct st; cbn in *; subst. repeat split; try done.
    rewrite map_size_empty. lia.
  - split; [by apply iteration_gated|].
    split; [by apply iteration_single_slot|].
    split; [by apply iteration_producer_credit|].
    by apply iteration_worker_first.
Qed.

(** The ledger and the buffer hold one entry between them at most: a
    request waits for a worker's feedback or for the worker itself, never
    two of them, and never one in each.  (The source says of the buffer
    that, a dictionary though it is, only one message can be in it.) *)
Theorem single_slot st :
  reachable st → (size (ledger st) + size (buffer st) ≤ 1)%nat.
Proof. by intros (_ & ? & _)%reachable_accounts. Qed.

(** Requests are read only after some worker has reported: a broker that
    never heard from a worker has its inbound socket unregistered. *)
Theorem worker_heard_first st :
  reachable st →
  inbound ∈ poller st →
  received outbound (trace st) ≠ [].
Proof. by intros (_ & _ & _ & ?)%reachable_accounts. Qed.

(** When the worker a message was buffered for reports back, the message
    goes to that worker and that is all: the producer that sent it is not
    acknowledged and no ledger entry is made for it, whether it blocks or
    not, so the feedback the worker will send for it finds nobody waiting.
    Ledger and buffer are both empty afterwards, and the inbound socket is
    registered again exactly when some worker is available. *)
Theorem buffer_drain st r w e f fb message_data :
  reachable st →
  buffer st !! w = Some message_data →
  ready_outbound r = Some [w; e; f] →
  ParseFromString f = Some fb →
  (iteration r st).1 = Return tt
  ∧ sent outbound (trace (iteration r st).2)
    = (sent outbound (trace st) ++ [[w; e; message_data]])%list
  ∧ sent inbound (trace (iteration r st).2) = sent inbound (trace st)
  ∧ ledger (iteration r st).2 = ∅
  ∧ buffer (iteration r st).2 = ∅
  ∧ available_outbound (iteration r st).2 = available_outbound st
  ∧ (inbound ∈ poller (iteration r st).2 ↔ available_outbound st ≠ []).
Proof.
  intros (Hg & Hslot & _)%reachable_accounts Hb Hr Hp.
  destruct Hg as [Ho Hg].
  pose proof (size_delete_lookup _ _ _ Hb) as Hsz.
  assert (Hl : ledger st = ∅) by (apply map_size_empty_inv; lia).
  assert (Hb' : delete w (buffer st) = ∅) by (apply map_size_empty_inv; lia).
  assert (Hn : inbound ∉ poller st).
  { intros Hin. destruct (Hg Hin) as [_ Hbe].
    by rewrite Hbe, lookup_empty in Hb. }
  destruct (outbound_event_tables st r w e f fb Ho Hr Hp)
    as (Hret & Hbuf & Hled).
  pose proof (outbound_event_dispatch st r w e f fb Ho Hr Hp) as Hdis.
  pose proof (outbound_event_replies st r w e f fb Ho Hr Hp) as Hrep.
  destruct (outbound_event_poller st r w e f fb Ho Hr Hp) as [Hyes Hno].
  rewrite Hb in Hdis. destruct Hdis as [Hsent Hav].
  rewrite Hl, lookup_empty, app_nil_r in Hrep.
  rewrite Hl, delete_empty in Hled. rewrite Hb' in Hbuf.
  rewrite Hbuf, Hled, Hav in Hyes, Hno.
  do 6 (split; [done|]). split.
  - intros Hin. destruct (available_outbound st) eqn:Hempty; [|done].
    destruct Hno as [Hpol _]; [by intros [? _]|]. by rewrite Hpol in Hin.
  - intros Hne. destruct Hyes as [-> _]; [done|].
    apply elem_of_union_l. by apply elem_of_singleton.
Qed.

End BrokerRuns.

Section BrokerOutcome.
Import Broker BrokerInput.
Context `{Codec BrokerMessage.t}.

(** An iteration ends normally exactly on an acceptable message. *)
Lemma acceptable_iff r st :
  (iteration r st).1 = Return tt ↔ acceptable r st.
Proof.
  unfold acceptable, served.
  iteration_cases r st;
    (split;
     [ intros Hret; try discriminate Hret; do 3 eexists;
       repeat split; try done; by eexists
     | intros (? & ? & ? & ? & Hrest); simplify_eq; try done;
       repeat match goal with
              | Hs : is_Some _ |- _ => destruct Hs as [? Hs]
              | Hs : _ ∧ _ |- _ => destruct Hs
              end; simplify_eq ]) || done.
  all: match goal with
       | He : _ |- _ => by apply inbound_in_event in He as [? _]
       end.
Qed.

(** An iteration raises exactly when the message it takes is not
    acceptable, that is, when it has not three frames ([ValueError]), when
    its last frame is no Broker envelope ([DecodeError]), or when it comes,
    on the inbound side, from an identity without a registration
    ([KeyError]); no other exception leaves the loop, and the receive that
    follows a poll never finds the socket empty. *)
Theorem iteration_raises_on_bad_input_only r st :
  ((iteration r st).1 = Return tt ↔ acceptable r st)
  ∧ ∀ e, (iteration r st).1 = Raise e →
         e = ValueError ∨ e = DecodeError
         ∨ (e = KeyError ∧ served r st = Some inbound).
Proof.
  split; [apply acceptable_iff|].
  unfold served. iteration_cases r st; intros ? [= <-]; auto.
  all: match goal with
       | He : _ |- _ =>
           first [ apply inbound_in_event in He as [_ [? ?]]; congruence
                 | apply outbound_in_event in He as [_ [? ?]]; congruence ]
       end.
Qed.

Lemma well_formed_acceptable r st :
  well_formed (inbound_components st) r → acceptable r st.
Proof.
  intros [Hout Hinb]. unfold acceptable.
  destruct (served r st) as [[]|] eqn:Hs; [| |done].
  - apply served_inbound in Hs as (_ & [_ [frames Hr]]%inbound_in_event & _).
    destruct (Hinb frames Hr) as (c & e & d & -> & ? & ?). by exists c, e, d.
  - apply served_outbound in Hs as [_ [frames Hr]].
    destruct (Hout frames Hr) as (c & e & d & -> & ?). by exists c, e, d.
Qed.

Lemma readable_no_critical r st :
  readable r st →
  logged CRITICAL (trace (iteration r st).2) = logged CRITICAL (trace st).
Proof.
  intros [s Hs]. destruct s.
  - apply served_inbound in Hs as (Hno & Hev & Hin).
    iteration_cases r st; by trace_norm.
  - apply served_outbound in Hs as [Ho Hev].
    assert (Hin := proj2 (outbound_in_event r (poller st)) (conj Ho Hev)).
    iteration_cases r st; by trace_norm.
Qed.

Lemma well_formed_run env (indices : list nat) st :
  (∀ i, well_formed (inbound_components st) (env i)) →
  never_blocks env indices st →
  (for_each indices (λ i, iteration (env i)) st).1 = Return tt
  ∧ logged CRITICAL (trace (for_each indices (λ i, iteration (env i)) st).2)
    = logged CRITICAL (trace st).
Proof.
  revert st. induction indices as [|i indices IH]; intros st Hwf Hnb; [done|].
  destruct Hnb as [Hr Hnb]. rewrite for_each_cons.
  pose proof (proj2 (acceptable_iff (env i) st)
                (well_formed_acceptable _ _ (Hwf i))) as Hret.
  pose proof (readable_no_critical _ _ Hr) as Hcrit.
  destruct (iteration_bookkeeping (env i) st) as (_ & _ & Hic & _).
  destruct (iteration (env i) st) as [[[]|e] st1]; [|done].
  cbn [fst snd] in *. rewrite <- Hcrit. apply IH; [by rewrite Hic|done].
Qed.

(** [start] runs to the end when the environment is well behaved and keeps
    it busy: if every message pending at a poll has three frames, a Broker
    envelope in the last, and, on the inbound side, a registered sender,
    and if at every poll of the run a registered socket is readable, so
    that no poll blocks, then no iteration raises, none falls through to
    the last branch, and [start] returns after exactly [messages] polls. *)
Theorem start_completes env st :
  (∀ i, well_formed (inbound_components st) (env i)) →
  never_blocks env (range (messages st)) (launch st).2 →
  (start env st).1 = Return tt
  ∧ polls (trace (start env st).2)
    = polls (trace st) + Z.to_nat (messages st)
  ∧ logged CRITICAL (trace (start env st).2) = logged CRITICAL (trace st).
Proof.
  intros Hwf Hnb. revert Hnb.
  unfold start, launch, logger, M_bind at 1 2 3 4 5, gets, modify. cbn.
  match goal with
  | |- context [ for_each ?l ?b ?s ] =>
      pose proof (loop_bookkeeping env l s) as (_ & _ & Hp);
      pose proof (well_formed_run env l s) as Hrun
  end.
  intros Hnb. destruct Hrun as [Hret Hcrit]; [by destruct st|by destruct st|].
  rewrite Hret in *. split; [done|].
  unfold range in Hp. rewrite length_seq in Hp.
  destruct st; cbn in *. rewrite Hcrit. split; [|by trace_norm].
  revert Hp. by trace_norm.
Qed.

End BrokerOutcome.

Section BrokerRoundTrip.
Import Broker BrokerInput.
Context `{Codec BrokerMessage.t}.

(** The round trip of the test's blocking producer, in two iterations: its
    request goes to the available worker, the worker's feedback with the
    same key comes back, and the producer is sent one frame, the payload of
    the feedback.  Afterwards nothing waits in the ledger, the worker is
    available again, and the inbound socket is registered for the next
    request. *)
Theorem blocking_round_trip st r1 r2 c e d m reg e' f fb :
  reachable st →
  served r1 st = Some inbound →
  ready_inbound r1 = Some [c; e; d] →
  ParseFromString d = Some m →
  inbound_components st !! c = Some reg →
  route reg ≠ "" →
  route reg ∈ available_outbound st →
  block reg = true →
  ready_outbound r2 = Some [route reg; e'; f] →
  ParseFromString f = Some fb →
  BrokerMessage.key fb = BrokerMessage.key m →
  (iteration r1 st).1 = Return tt
  ∧ (iteration r2 (iteration r1 st).2).1 = Return tt
  ∧ sent outbound (trace (iteration r2 (iteration r1 st).2).2)
    = (sent outbound (trace st) ++ [[route reg; e; SerializeToString m]])%list
  ∧ sent inbound (trace (iteration r2 (iteration r1 st).2).2)
    = (sent inbound (trace st) ++ [[c; e'; BrokerMessage.payload fb]])%list
  ∧ ledger (iteration r2 (iteration r1 st).2).2 = ∅
  ∧ buffer (iteration r2 (iteration r1 st).2).2 = ∅
  ∧ available_outbound (iteration r2 (iteration r1 st).2).2
    = (list_remove_first (route reg) (available_outbound st)
       ++ [route reg])%list
  ∧ inbound ∈ poller (iteration r2 (iteration r1 st).2).2.
Proof.
  intros Hreach Hs Hr1 Hp1 Hreg Hroute Hav Hb Hr2 Hp2 Hkey.
  destruct (reachable_gated st Hreach) as [Ho Hg].
  destruct (Hg (proj2 (proj2 (served_inbound r1 st Hs)))) as [Hl0 Hb0].
  destruct (inbound_event_blocking st r1 c e d m reg)
    as (Hret1 & Hav1 & Hled1 & Hbuf1 & Hpol1 & Hout1 & Hinb1); try done.
  set (st1 := (iteration r1 st).2) in *.
  assert (Ho1 : outbound ∈ poller st1) by by apply outbound_stays_registered.
  destruct (outbound_event_tables st1 r2 _ _ _ _ Ho1 Hr2 Hp2)
    as (Hret2 & Hbuf2 & Hled2).
  pose proof (outbound_event_dispatch st1 r2 _ _ _ _ Ho1 Hr2 Hp2) as Hdis.
  pose proof (outbound_event_replies st1 r2 _ _ _ _ Ho1 Hr2 Hp2) as Hrep.
  destruct (outbound_event_poller st1 r2 _ _ _ _ Ho1 Hr2 Hp2) as [Hyes _].
  rewrite Hbuf1, Hb0, lookup_empty in Hdis. destruct Hdis as [Hout2 Hav2].
  rewrite Hled1, Hkey, lookup_insert_eq in Hrep.
  rewrite Hled1, Hkey, delete_insert_eq, Hl0, delete_empty in Hled2.
  rewrite Hbuf1, Hb0, delete_empty in Hbuf2.
  rewrite Hout2, Hout1, Hrep, Hinb1, Hav2, Hav1.
  do 7 (split; [done|]).
  destruct Hyes as [-> _].
  - rewrite Hav2. repeat split; try done.
    by destruct (available_outbound st1).
  - apply elem_of_union_l. by apply elem_of_singleton.
Qed.

End BrokerRoundTrip.

Section PerWorker.
Import Broker BrokerInput WorkerCount.
Context `{Codec BrokerMessage.t}.

Lemma listed_remove_first w x (l : list bytes) :
  x ∈ l →
  listed w (list_remove_first x l) + (if decide (x = w) then 1 else 0)
  = listed w l.
Proof.
  unfold listed. induction l as [|y l IH]; [by intros ?%elem_of_nil|].
  intros Hin. cbn [list_remove_first].
  destruct (decide (x = y)) as [<-|Hxy].
  - rewrite filter_cons. repeat case_decide; simplify_eq/=; lia.
  - apply elem_of_cons in Hin as [?|Hin]; [done|].
    specialize (IH Hin). rewrite !filter_cons.
    repeat case_decide; simplify_eq/=; lia.
Qed.

Lemma iteration_per_worker_credit w r st :
  (addressed w (sent outbound (trace st)) + listed w (available_outbound st)
   ≤ addressed w (received outbound (trace st)))%nat →
  (addressed w (sent outbound (trace (iteration r st).2))
   + listed w (available_outbound (iteration r st).2)
   ≤ addressed w (received outbound (trace (iteration r st).2)))%nat.
Proof.
  intros Hsz. unfold addressed, listed in *.
  iteration_cases r st; trace_norm; simpl;
    try match goal with
        | |- context [ list_remove_first ?x ?l ] =>
            pose proof (listed_remove_first w x l ltac:(assumption)) as Hrm;
            unfold listed in Hrm
        end;
    rewrite ?filter_app, ?length_app, ?filter_cons, ?filter_nil; simpl;
    repeat case_decide; simplify_eq/=; lia.
Qed.

(** A worker is sent a message only against a message of its own: for each
    worker, the frames sent to it and the times it is listed as available
    never exceed the frames received from it.  A worker behind a REQ
    socket, which must send before it can receive, is never sent two
    messages in a row. *)
Theorem per_worker_credit w st :
  reachable st →
  (addressed w (sent outbound (trace st)) + listed w (available_outbound st)
   ≤ addressed w (received outbound (trace st)))%nat.
Proof.
  induction 1 as [st Hc|st r Hr IH].
  - destruct (configured_fresh st Hc) as (_ & _ & _ & Htr).
    destruct st; cbn in *; subst. cbn. lia.
  - by apply iteration_per_worker_credit.
Qed.
End PerWorker.

Section PerProducer.
Import Broker BrokerInput WorkerCount.
Context `{Codec BrokerMessage.t}.

Lemma waiting_delete c k p (m : gmap string bytes) :
  m !! k = Some p →
  waiting c (delete k m) + (if decide (p = c) then 1 else 0) = waiting c m.
Proof.
  intros Hl. unfold waiting. rewrite map_filter_delete.
  destruct (decide (p = c)) as [->|Hpc].
  - rewrite <- (size_delete_lookup (filter _ m) k c); [lia|].
    by apply map_lookup_filter_Some.
  - rewrite delete_id; [lia|].
    apply map_lookup_filter_None. right. intros ? ?. cbn. congruence.
Qed.

Lemma waiting_delete_None c k (m : gmap string bytes) :
  m !! k = None → waiting c (delete k m) = waiting c m.
Proof. intros Hl. by rewrite delete_id. Qed.

Lemma waiting_first c k p :
  waiting c (<[ k := p ]> ∅) = if decide (p = c) then 1 else 0.
Proof.
  unfold waiting. rewrite insert_empty.
  destruct (decide (p = c)) as [->|Hpc].
  - by rewrite map_filter_singleton_True, map_size_singleton.
  - by rewrite map_filter_singleton_False, map_size_empty.
Qed.

Lemma iteration_per_producer_credit c r st :
  gated st →
  (addressed c (sent inbound (trace st)) + waiting c (ledger st)
   ≤ addressed c (received inbound (trace st)))%nat →
  (addressed c (sent inbound (trace (iteration r st).2))
   + waiting c (ledger (iteration r st).2)
   ≤ addressed c (received inbound (trace (iteration r st).2)))%nat.
Proof.
  intros [_ Hg] Hsz.
  assert (Hev : inbound ∈ filter (λ s, is_Some (pending r s)) (poller st) →
                ledger st = ∅ ∧ buffer st = ∅)
    by (intros [? _]%inbound_in_event; auto).
  clear Hg. unfold addressed in *.
  iteration_cases r st; trace_norm; simpl;
    repeat match goal with
           | Hl : _ !! _ = Some _ |- _ =>
               apply (waiting_delete c) in Hl
           | Hl : _ !! _ = None |- _ =>
               apply (waiting_delete_None c) in Hl
           end;
    try match goal with
        | Hin : _ |- _ => destruct (Hev Hin) as [-> ->]
        end;
    rewrite ?waiting_first;
    rewrite ?filter_app, ?length_app, ?filter_cons, ?filter_nil; simpl;
    repeat case_decide; simplify_eq/=; lia.
Qed.

(** A producer is answered only against a request of its own: for each
    producer, the frames sent to it and the ledger entries it waits under
    never exceed the requests received from it.  A producer behind a REQ
    socket is never sent a frame it is not waiting for. *)
Theorem per_producer_credit c st :
  reachable st →
  (addressed c (sent inbound (trace st)) + waiting c (ledger st)
   ≤ addressed c (received inbound (trace st)))%nat.
Proof.
  induction 1 as [st Hc|st r Hr IH].
  - destruct (configured_fresh st Hc) as (Hl & _ & _ & Htr).
    destruct st; cbn in *; subst. cbn. unfold waiting.
    rewrite map_filter_empty, map_size_empty. lia.
  - apply iteration_per_producer_credit; [by apply reachable_gated|done].
Qed.

End PerProducer.

Section OutboundRegistrations.
Import Broker.
Context `{Codec BrokerMessage.t}.

Lemma iteration_outbound_components f r st :
  iteration r (set_outbound_components f st)
  = ((iteration r st).1, set_outbound_components f (iteration r st).2).
Proof. destruct st; cbn. broker_run; done. Qed.

Lemma loop_outbound_components f env (indices : list nat) st :
  for_each indices (λ i, iteration (env i)) (set_outbound_components f st)
  = ((for_each indices (λ i, iteration (env i)) st).1,
     set_outbound_components f
       (for_each indices (λ i, iteration (env i)) st).2).
Proof.
  revert st. induction indices as [|i indices IH]; intros st; [done|].
  rewrite !for_each_cons, iteration_outbound_components.
  destruct (iteration (env i) st) as [[[]|e] st']; cbn [fst snd]; [|done].
  apply IH.
Qed.

Lemma start_outbound_components f env st :
  start env (set_outbound_components f st)
  = ((start env st).1, set_outbound_components f (start env st).2).
Proof.
  unfold start, launch, logger, M_bind at 1 2 3 4 5, M_bind at 2 3 4 5 6,
    gets, modify.
  destruct st as [ic oc ms l b p av cl tr]; cbn.
  apply (loop_outbound_components f env (range ms)
           (mkState ic oc ms l b p [] cl _)).
Qed.

(** The table filled by [register_outbound] is never read: [start] ends the
    same way and leaves the same trace and the same tables whether a worker
    was registered or not, so that a worker nobody registered is served
    like any other. *)
Theorem outbound_registrations_not_consulted env name log st :
  (start env (register_outbound name log st)).1 = (start env st).1
  ∧ (start env (register_outbound name log st)).2
    = register_outbound name log (start env st).2.
Proof.
  unfold register_outbound. by rewrite start_outbound_components.
Qed.

End OutboundRegistrations.

(** * Further properties of the push-pull service *)

Section TranslationConduct.
Import PushPullService.
Context {U : Type} `{Codec BrokerMessage.t} `{Codec PalmMessage.t}.

(** How the translation for the broker fails in a PALM service: with
    [DecodeError] on bytes that are no client envelope, with
    [AttributeError] when the service was given no cache.  Either way a key
    was drawn and is lost, and the cache is as it was. *)
Theorem translate_to_broker_failures (env : Env) (st : State U) message_data :
  palm st = true →
  (_translate_to_broker env message_data st).1
  = match ParseFromString (A:=PalmMessage.t) message_data with
    | None => Raise DecodeError
    | Some palm_message =>
        match cache st with
        | None => Raise AttributeError
        | Some _ =>
            Return (SerializeToString
                      (BrokerMessage.Build (uuid4 env (uuids st))
                         (PalmMessage.payload palm_message)))
        end
    end
  ∧ uuids (_translate_to_broker env message_data st).2 = S (uuids st)
  ∧ (∀ e, (_translate_to_broker env message_data st).1 = Raise e →
          cache (_translate_to_broker env message_data st).2 = cache st).
Proof.
  intros Hpalm. destruct st as [nm pl ch ms u ids br pr cl tr]; cbn in *.
  subst pl. service_unfold.
  destruct (ParseFromString message_data); cbn; [|done].
  by destruct ch.
Qed.

(** The translation of a reply only reads: whatever it is given and however
    it ends, the service, its cache included, is what it was.  It fails
    with [DecodeError] on bytes that are no Broker envelope and, in a PALM
    service, with [AttributeError] without a cache, with [TypeError] when
    the cache has nothing under the key, and with [DecodeError] when what
    it has is no client envelope. *)
Theorem translate_from_broker_reads_only (st : State U) message_data :
  (_translate_from_broker message_data st).2 = st
  ∧ (_translate_from_broker message_data st).1
    = match ParseFromString (A:=BrokerMessage.t) message_data with
      | None => Raise DecodeError
      | Some broker_message =>
          if palm st then
            match cache st with
            | None => Raise AttributeError
            | Some c =>
                match c !! BrokerMessage.key broker_message with
                | None => Raise TypeError
                | Some original =>
                    match ParseFromString (A:=PalmMessage.t) original with
                    | None => Raise DecodeError
                    | Some palm_message =>
                        Return
                          (SerializeToString
                             (PalmMessage.set_payload
                                (BrokerMessage.payload broker_message)
                                palm_message))
                    end
                end
            end
          else Return (BrokerMessage.payload broker_message)
      end.
Proof.
  destruct st as [nm pl ch ms u ids br pr cl tr]. service_unfold.
  destruct (ParseFromString message_data) as [bm|]; cbn; [|done].
  destruct pl; cbn; [|done].
  destruct ch as [c|]; cbn; [|done].
  destruct (c !! BrokerMessage.key bm) as [original|]; cbn; [|done].
  by destruct (ParseFromString original).
Qed.

(** A binary message survives the way to the broker and back: what the
    service makes of the envelope it built itself is the message. *)
Theorem binary_round_trip (env : Env) (st : State U) message_data :
  palm st = false →
  ParseFromString
    (SerializeToString
       (BrokerMessage.Build (uuid4 env (uuids st)) message_data))
  = Some (BrokerMessage.Build (uuid4 env (uuids st)) message_data) →
  ∃ envelope,
    (_translate_to_broker env message_data st).1 = Return envelope
    ∧ (_translate_from_broker envelope
         (_translate_to_broker env message_data st).2).1
      = Return message_data.
Proof.
  intros Hpalm Hround. destruct st as [nm pl ch ms u ids br pr cl tr].
  cbn in *. subst pl. eexists. split; [by service_unfold|].
  service_unfold. by rewrite Hround.
Qed.

(** A client envelope goes to the broker and comes back with the worker's
    result: translated for the broker and then, with the reply that bears
    the same key, translated back, it is the original with its payload
    replaced by the reply's, and the original itself when the worker
    returns the payload it got.  The entry made in the cache on the way out
    is still there. *)
Theorem palm_round_trip (env : Env) (st : State U) message_data
    palm_message c result :
  palm st = true →
  cache st = Some c →
  ParseFromString message_data = Some palm_message →
  ParseFromString
    (SerializeToString (BrokerMessage.Build (uuid4 env (uuids st)) result))
  = Some (BrokerMessage.Build (uuid4 env (uuids st)) result) →
  let key := uuid4 env (uuids st) in
  let sent_out := _translate_to_broker env message_data st in
  let reply := SerializeToString (BrokerMessage.Build key result) in
  sent_out.1
  = Return (SerializeToString
              (BrokerMessage.Build key (PalmMessage.payload palm_message)))
  ∧ _translate_from_broker reply sent_out.2
    = (Return (SerializeToString
                 (PalmMessage.set_payload result palm_message)),
       sent_out.2)
  ∧ cache sent_out.2 = Some (<[ key := message_data ]> c)
  ∧ PalmMessage.set_payload (PalmMessage.payload palm_message) palm_message
    = palm_message.
Proof.
  intros Hpalm Hc Hp Hround.
  destruct st as [nm pl ch ms u ids br pr cl tr]; cbn in *. subst pl ch.
  repeat split.
  - service_unfold. by rewrite Hp.
  - service_unfold. rewrite Hp. cbn. rewrite Hround. cbn.
    by rewrite lookup_insert_eq, Hp.
  - service_unfold. by rewrite Hp.
  - by destruct palm_message.
Qed.

End TranslationConduct.

Section ScatterConduct.
Import PushPullService ServiceTraffic.
Context {U : Type} `{Overrides U}.
Variable env : Env.

Lemma start_eq `{Codec BrokerMessage.t} (st : State U) :
  start env st
  = (Return tt,
     Nat.iter (Z.to_nat (messages st)) (λ s, (serve_one env s).2)
       (emit (Send broker (SerializeToString (BrokerMessage.Build "0" "0")))
          (emit (Log INFO "Launch component {}") st))).
Proof.
  unfold start, logger, send. repeat monad_step.
  rewrite serve_loop. unfold range. rewrite length_seq. by destruct st.
Qed.

Lemma pool_rounds_traffic (xs rs : list bytes) :
  length rs = length xs →
  broker_traffic (concat (zip_with pool_round xs rs)) = []
  ∧ pool_traffic (concat (zip_with pool_round xs rs))
    = concat (replicate (length xs) [true; false]).
Proof.
  revert rs. induction xs as [|x xs IH]; intros [|r rs] Hlen; try done.
  destruct (IH rs) as [Hb Hp]; [by injection Hlen|].
  split; [done|]. cbn [length replicate concat zip_with].
  unfold pool_traffic in *. rewrite omap_app, Hp. by simpl.
Qed.

(** What one pass leaves alone, and what it adds to the traffic. *)
Lemma serve_one_conduct (s : State U) :
  let s' := (serve_one env s).2 in
  name s' = name s ∧ palm s' = palm s ∧ cache s' = cache s
  ∧ messages s' = messages s ∧ uuids s' = uuids s ∧ closed s' = closed s
  ∧ (pull_received s ≤ pull_received s')%nat
  ∧ broker_traffic (trace s') = (broker_traffic (trace s) ++ [false; true])%list
  ∧ pool_traffic (trace s')
    = (pool_traffic (trace s)
       ++ concat (replicate (pull_received s' - pull_received s)
                    [true; false]))%list.
Proof.
  cbv zeta. rewrite serve_one_eq. cbv zeta.
  cbn [snd name palm cache messages uuids closed pull_received trace].
  destruct (pool_rounds_traffic
              (scatter (from_broker env (broker_received s)))
              (responses env (pull_received s)
                 (length (scatter (from_broker env (broker_received s))))))
    as [Hb Hp]; [by rewrite length_responses|].
  do 6 (split; [done|]). split; [lia|].
  unfold broker_traffic, pool_traffic in *.
  rewrite !omap_app, Hb, Hp. simpl. rewrite !app_nil_r.
  split; [done|]. do 3 f_equal. lia.
Qed.

Lemma iterated_conduct n (st : State U) :
  let final := Nat.iter n (λ s, (serve_one env s).2) st in
  name final = name st ∧ palm final = palm st ∧ cache final = cache st
  ∧ messages final = messages st ∧ uuids final = uuids st
  ∧ closed final = closed st
  ∧ (pull_received st ≤ pull_received final)%nat
  ∧ broker_traffic (trace final)
    = (broker_traffic (trace st) ++ concat (replicate n [false; true]))%list
  ∧ pool_traffic (trace final)
    = (pool_traffic (trace st)
       ++ concat (replicate (pull_received final - pull_received st)
                    [true; false]))%list.
Proof.
  cbv zeta. induction n as [|n IH].
  - cbn. rewrite Nat.sub_diag. cbn. by rewrite !app_nil_r.
  - rewrite Nat.iter_succ.
    set (s := Nat.iter n (λ s, (serve_one env s).2) st) in *.
    destruct IH as (Hn & Hpl & Hc & Hm & Hu & Hcl & Hle & Hb & Hp).
    pose proof (serve_one_conduct s) as Hone. cbv zeta in Hone.
    destruct Hone as (Hn1 & Hpl1 & Hc1 & Hm1 & Hu1 & Hcl1 & Hle1 & Hb1 & Hp1).
    rewrite Hn1, Hpl1, Hc1, Hm1, Hu1, Hcl1, Hb1, Hp1, Hb, Hp.
    do 6 (split; [done|]). split; [lia|]. split.
    + rewrite <- app_assoc. f_equal.
      change [false; true] with (concat (replicate 1 [false; true])) at 2.
      rewrite <- concat_app, <- replicate_add. do 2 f_equal. lia.
    + rewrite <- app_assoc. f_equal.
      rewrite <- concat_app, <- replicate_add. do 2 f_equal. lia.
Qed.

(** [start] serves the broker and does nothing else to the service: with
    overriding methods that keep to the attributes of the subclass, it
    draws no key, writes no cache entry (neither translation is called),
    and closes no socket (that is left to [cleanup], which [start] does not
    call). *)
Theorem start_leaves_cache_and_sockets `{Codec BrokerMessage.t}
    (st : State U) :
  (start env st).1 = Return tt
  ∧ cache (start env st).2 = cache st
  ∧ uuids (start env st).2 = uuids st
  ∧ closed (start env st).2 = closed st
  ∧ name (start env st).2 = name st
  ∧ palm (start env st).2 = palm st
  ∧ messages (start env st).2 = messages st.
Proof.
  rewrite start_eq. cbn [fst snd].
  pose proof (iterated_conduct (Z.to_nat (messages st))
                (emit (Send broker
                         (SerializeToString (BrokerMessage.Build "0" "0")))
                   (emit (Log INFO "Launch component {}") st))) as Hc.
  cbv zeta in Hc. destruct Hc as (Hn & Hpl & Hc & Hm & Hu & Hcl & _).
  rewrite Hn, Hpl, Hc, Hm, Hu, Hcl. by destruct st.
Qed.

(** The REQ socket to the broker is used in the only order it allows: a
    send first (the ready message), then, for each message served, one
    receive followed by one send. *)
Theorem broker_socket_alternates `{Codec BrokerMessage.t} (st : State U) :
  broker_traffic (trace (start env st).2)
  = (broker_traffic (trace st)
     ++ true :: concat (replicate (Z.to_nat (messages st)) [false; true]))%list.
Proof.
  rewrite start_eq. cbn [snd].
  pose proof (iterated_conduct (Z.to_nat (messages st))
                (emit (Send broker
                         (SerializeToString (BrokerMessage.Build "0" "0")))
                   (emit (Log INFO "Launch component {}") st))) as Hc.
  cbv zeta in Hc. destruct Hc as (_ & _ & _ & _ & _ & _ & _ & Hb & _).
  rewrite Hb. destruct st; simpl. unfold broker_traffic.
  rewrite !omap_app. simpl. by rewrite <- !app_assoc.
Qed.

(** On the pool side every push is followed by its pull before the next
    push: over a whole run the traffic is push, pull, push, pull, ..., as
    many pairs as responses were pulled. *)
Theorem pool_alternates `{Codec BrokerMessage.t} (st : State U) :
  pool_traffic (trace (start env st).2)
  = (pool_traffic (trace st)
     ++ concat (replicate
                  (pull_received (start env st).2 - pull_received st)
                  [true; false]))%list.
Proof.
  rewrite start_eq. cbn [snd].
  pose proof (iterated_conduct (Z.to_nat (messages st))
                (emit (Send broker
                         (SerializeToString (BrokerMessage.Build "0" "0")))
                   (emit (Log INFO "Launch component {}") st))) as Hc.
  cbv zeta in Hc. destruct Hc as (_ & _ & _ & _ & _ & _ & _ & _ & Hp).
  rewrite Hp. destruct st; simpl. unfold pool_traffic.
  rewrite !omap_app. simpl. by rewrite !app_nil_r.
Qed.

End ScatterConduct.

Section Overriding.
Import PushPullService.

(** With the methods as [PushPullService] defines them, a message from the
    broker goes to the pool once, byte for byte, the pool's answer is
    dropped, and the broker is answered [b'0']. *)
Theorem default_methods_pass_through (env : Env) (s : State unit) :
  trace (@serve_one unit env defaults s).2
  = (trace s
     ++ [Log DEBUG "Component {} blocked waiting for broker";
         Recv broker (from_broker env (broker_received s));
         Log DEBUG "Got message from broker";
         Send push (from_broker env (broker_received s));
         Recv pull (from_pull env (pull_received s));
         HandleFeedback (from_pull env (pull_received s));
         ReplyFeedback "0";
         Send broker "0"])%list
  ∧ user (@serve_one unit env defaults s).2 = user s
  ∧ pull_received (@serve_one unit env defaults s).2 = S (pull_received s).
Proof.
  rewrite serve_one_eq. cbv zeta. cbn. repeat split. lia.
Qed.

(** [MyMaster.scatter] of the documentation's example sends each message
    to the pool three times, each copy answered before the next is
    pushed. *)
Theorem my_master_scatters_three (env : Env) (s : State unit) :
  trace (@serve_one unit env MyMaster s).2
  = (trace s
     ++ [Log DEBUG "Component {} blocked waiting for broker";
         Recv broker (from_broker env (broker_received s));
         Log DEBUG "Got message from broker";
         Send push (from_broker env (broker_received s));
         Recv pull (from_pull env (pull_received s));
         HandleFeedback (from_pull env (pull_received s));
         Send push (from_broker env (broker_received s));
         Recv pull (from_pull env (S (pull_received s)));
         HandleFeedback (from_pull env (S (pull_received s)));
         Send push (from_broker env (broker_received s));
         Recv pull (from_pull env (S (S (pull_received s))));
         HandleFeedback (from_pull env (S (S (pull_received s))));
         ReplyFeedback "0";
         Send broker "0"])%list.
Proof. rewrite serve_one_eq. cbv zeta. by cbn. Qed.

(** [cleanup] closes the three sockets, push, pull, broker in that order,
    whatever state the service is in; calling it again closes nothing
    new. *)
Theorem cleanup_closes_all {U} (st : State U) :
  (cleanup st).1 = Return tt
  ∧ closed (cleanup st).2 = {[ push; pull; broker ]} ∪ closed st
  ∧ trace (cleanup st).2
    = (trace st ++ [Close push; Close pull; Close broker])%list
  ∧ closed (cleanup (cleanup st).2).2 = closed (cleanup st).2
  ∧ cache (cleanup st).2 = cache st.
Proof.
  destruct st; unfold cleanup, close, M_bind, modify; cbn.
  repeat split.
  - apply set_eq. intros x. rewrite !elem_of_union. tauto.
  - by rewrite <- !app_assoc.
  - apply set_eq. intros x. rewrite !elem_of_union. tauto.
Qed.

End Overriding.

(** * The further properties at the states of the test *)

Section BrokerRunsScenario.
Import Wire Broker BrokerInput WorkerCount Scenario.

Ltac by_evaluation := apply (bool_decide_unpack _); vm_compute; exact I.

Lemma reachable_busy : reachable busy.
Proof. apply reachable_iteration, reachable_iteration, reachable_launch.
  repeat constructor. Qed.

Lemma reachable_echoed : reachable echoed.
Proof. do 3 apply reachable_iteration. apply reachable_busy. Qed.

(** The other producer's request at the ready worker: acknowledged at once,
    the worker no longer available. *)
Lemma nonblocking_dispatch_witness :
  served (request "inbound2" "key-1" "1") ready = Some inbound
  ∧ inbound_components ready !! "inbound2"
    = Some (mkRegistration "outbound" false "inbound2")
  ∧ ("outbound" ∈ available_outbound ready)
  ∧ ("outbound" ∉ available_outbound busy)
  ∧ sent inbound (trace busy)
    = (sent inbound (trace ready) ++ [["inbound2"; ""; "1"]])%list
  ∧ poller busy = poller ready.
Proof.
  assert (Hs : served (request "inbound2" "key-1" "1") ready = Some inbound)
    by by vm_compute.
  assert (Hreg : inbound_components ready !! "inbound2"
                 = Some (mkRegistration "outbound" false "inbound2"))
    by by vm_compute.
  assert (Hav : "outbound" ∈ available_outbound ready) by by_evaluation.
  assert (Hp : ParseFromString (envelope "key-1" "1")
               = Some (BrokerMessage.Build "key-1" "1")) by by vm_compute.
  split; [exact Hs|]. split; [exact Hreg|]. split; [exact Hav|].
  pose proof (nonblocking_dispatch ready (request "inbound2" "key-1" "1")
                "inbound2" "" (envelope "key-1" "1")
                (BrokerMessage.Build "key-1" "1")
                (mkRegistration "outbound" false "inbound2")
                Hs eq_refl Hp Hreg ltac:(done) Hav eq_refl) as Hthm.
  destruct Hthm as (_ & _ & Hgone & _ & Hinb & _ & _ & Hpol).
  assert (Hnd : NoDup (available_outbound ready)) by by_evaluation.
  exact (conj (Hgone Hnd) (conj Hinb Hpol)).
Defined.

(** The test registers the worker's own name with [register_inbound] and no
    route: a request under that name is acknowledged and goes nowhere. *)
Lemma unrouted_request_acknowledged_witness :
  served (request "outbound" "key-5" "5") ready = Some inbound
  ∧ inbound_components ready !! "outbound"
    = Some (mkRegistration "" false "outbound")
  ∧ sent inbound (trace (iteration (request "outbound" "key-5" "5") ready).2)
    = (sent inbound (trace ready) ++ [["outbound"; ""; "1"]])%list
  ∧ sent outbound (trace (iteration (request "outbound" "key-5" "5") ready).2)
    = sent outbound (trace ready).
Proof.
  assert (Hs : served (request "outbound" "key-5" "5") ready = Some inbound)
    by by vm_compute.
  assert (Hreg : inbound_components ready !! "outbound"
                 = Some (mkRegistration "" false "outbound"))
    by by vm_compute.
  assert (Hp : ParseFromString (envelope "key-5" "5")
               = Some (BrokerMessage.Build "key-5" "5")) by by vm_compute.
  split; [exact Hs|]. split; [exact Hreg|].
  pose proof (unrouted_request_acknowledged ready
                (request "outbound" "key-5" "5")
                "outbound" "" (envelope "key-5" "5")
                (BrokerMessage.Build "key-5" "5")
                (mkRegistration "" false "outbound")
                Hs eq_refl Hp Hreg eq_refl) as Hthm.
  destruct Hthm as (_ & Hinb & Hout & _).
  exact (conj Hinb Hout).
Defined.

(** A producer that sends two frames instead of three. *)
Lemma malformed_message_raises_witness :
  let short := mkReady (Some ["inbound1"; "junk"]) None in
  served short ready = Some inbound
  ∧ (iteration short ready).1 = Raise ValueError
  ∧ sent inbound (trace (iteration short ready).2)
    = sent inbound (trace ready).
Proof.
  cbv zeta.
  assert (Hs : served (mkReady (Some ["inbound1"; "junk"]) None) ready
               = Some inbound) by by vm_compute.
  split; [exact Hs|].
  pose proof (malformed_message_raises ready
                (mkReady (Some ["inbound1"; "junk"]) None)
                inbound ["inbound1"; "junk"] Hs eq_refl I) as Hthm.
  destruct Hthm as (Hret & _ & Hinb & _).
  exact (conj Hret Hinb).
Defined.

(** While the blocking producer's request waits in the buffer, the one slot
    is taken. *)
Lemma single_slot_witness :
  reachable buffered
  ∧ (size (ledger buffered) + size (buffer buffered) ≤ 1)%nat.
Proof.
  assert (Hr : reachable buffered) by apply reachable_iteration, reachable_busy.
  exact (conj Hr (single_slot buffered Hr)).
Defined.

(** The blocking producer while it waits for its reply: one request
    received from it, one ledger entry, no frame sent to it yet. *)
Lemma per_producer_credit_witness :
  reachable blocked
  ∧ waiting "inbound1" (ledger blocked) = 1
  ∧ (addressed "inbound1" (sent inbound (trace blocked))
     + waiting "inbound1" (ledger blocked)
     ≤ addressed "inbound1" (received inbound (trace blocked)))%nat.
Proof.
  assert (Hr : reachable blocked).
  { do 2 apply reachable_iteration. apply reachable_launch.
    repeat constructor. }
  assert (Hw : waiting "inbound1" (ledger blocked) = 1) by by vm_compute.
  exact (conj Hr (conj Hw (per_producer_credit "inbound1" blocked Hr))).
Defined.

Lemma worker_heard_first_witness :
  reachable ready
  ∧ inbound ∈ poller ready
  ∧ received outbound (trace ready) ≠ [].
Proof.
  assert (Hr : reachable ready).
  { apply reachable_iteration, reachable_launch. repeat constructor. }
  assert (Hin : inbound ∈ poller ready) by by_evaluation.
  exact (conj Hr (conj Hin (worker_heard_first ready Hr Hin))).
Defined.

(** The worker reports back while the blocking producer's request is
    buffered for it: it gets the request, the producer gets nothing. *)
Lemma buffer_drain_witness :
  reachable buffered
  ∧ buffer buffered !! "outbound" = Some (envelope "key-0" "0")
  ∧ sent outbound (trace drained)
    = (sent outbound (trace buffered)
       ++ [["outbound"; ""; envelope "key-0" "0"]])%list
  ∧ sent inbound (trace drained) = sent inbound (trace buffered)
  ∧ ledger drained = ∅.
Proof.
  assert (Hr : reachable buffered) by apply reachable_iteration, reachable_busy.
  assert (Hb : buffer buffered !! "outbound" = Some (envelope "key-0" "0"))
    by by vm_compute.
  assert (Hp : ParseFromString (envelope "key-1" "1")
               = Some (BrokerMessage.Build "key-1" "1")) by by vm_compute.
  split; [exact Hr|]. split; [exact Hb|].
  pose proof (buffer_drain buffered (echo "key-1" "1") "outbound" ""
                (envelope "key-1" "1") (BrokerMessage.Build "key-1" "1")
                (envelope "key-0" "0") Hr Hb eq_refl Hp) as Hthm.
  destruct Hthm as (_ & Hout & Hinb & Hled & _).
  exact (conj Hout (conj Hinb Hled)).
Defined.

(** The round trip of the test's blocking producer from the ready state. *)
Lemma blocking_round_trip_witness :
  reachable ready
  ∧ served (request "inbound1" "key-0" "0") ready = Some inbound
  ∧ ("outbound" ∈ available_outbound ready)
  ∧ sent inbound (trace (iteration (echo "key-0" "0") blocked).2)
    = (sent inbound (trace ready) ++ [["inbound1"; ""; "0"]])%list
  ∧ inbound ∈ poller (iteration (echo "key-0" "0") blocked).2.
Proof.
  assert (Hr : reachable ready).
  { apply reachable_iteration, reachable_launch. repeat constructor. }
  assert (Hs : served (request "inbound1" "key-0" "0") ready = Some inbound)
    by by vm_compute.
  assert (Hreg : inbound_components ready !! "inbound1"
                 = Some (mkRegistration "outbound" true "inbound1"))
    by by vm_compute.
  assert (Hav : "outbound" ∈ available_outbound ready) by by_evaluation.
  assert (Hp : ParseFromString (envelope "key-0" "0")
               = Some (BrokerMessage.Build "key-0" "0")) by by vm_compute.
  split; [exact Hr|]. split; [exact Hs|]. split; [exact Hav|].
  pose proof (blocking_round_trip ready (request "inbound1" "key-0" "0")
                (echo "key-0" "0") "inbound1" "" (envelope "key-0" "0")
                (BrokerMessage.Build "key-0" "0")
                (mkRegistration "outbound" true "inbound1")
                "" (envelope "key-0" "0") (BrokerMessage.Build "key-0" "0")
                Hr Hs eq_refl Hp Hreg ltac:(done) Hav eq_refl eq_refl Hp
                eq_refl) as Hthm.
  destruct Hthm as (_ & _ & _ & Hinb & _ & _ & _ & Hpol).
  exact (conj Hinb Hpol).
Defined.

(** The worker of the test after it was handed the buffered request: two
    frames came from it, one is owed to it no longer. *)
Lemma per_worker_credit_witness :
  reachable drained
  ∧ (addressed "outbound" (sent outbound (trace drained))
     + listed "outbound" (available_outbound drained)
     ≤ addressed "outbound" (received outbound (trace drained)))%nat.
Proof.
  assert (Hr : reachable drained).
  { do 2 apply reachable_iteration. apply reachable_busy. }
  exact (conj Hr (per_worker_credit "outbound" drained Hr)).
Defined.

(** Three iterations of the test's broker on the round trip of the blocking
    producer: at each poll the socket the message is on is registered. *)
Lemma start_completes_witness :
  (∀ i, well_formed (inbound_components (broker_for 3)) (round_trip i))
  ∧ never_blocks round_trip (range (messages (broker_for 3)))
      (launch (broker_for 3)).2
  ∧ (start round_trip (broker_for 3)).1 = Return tt
  ∧ polls (trace (start round_trip (broker_for 3)).2)
    = polls (trace (broker_for 3)) + Z.to_nat (messages (broker_for 3))
  ∧ logged CRITICAL (trace (start round_trip (broker_for 3)).2)
    = logged CRITICAL (trace (broker_for 3)).
Proof.
  assert (Hwf : ∀ i,
             well_formed (inbound_components (broker_for 3)) (round_trip i)).
  { intros [|[|i]]; (split; intros frames [= <-]);
      eexists _, _, _; (split; [reflexivity|]);
      try split; by vm_compute; eexists. }
  assert (Hnb : never_blocks round_trip (range (messages (broker_for 3)))
                  (launch (broker_for 3)).2).
  { repeat split; by vm_compute; eexists. }
  exact (conj Hwf (conj Hnb (start_completes round_trip (broker_for 3)
                               Hwf Hnb))).
Defined.

End BrokerRunsScenario.

Section TranslationScenario.
Import Wire PushPullService ServiceScenario.

(** Bytes that are no client envelope, given to the PALM service. *)
Lemma translate_to_broker_failures_witness :
  palm palm_service = true
  ∧ (_translate_to_broker env "junk" palm_service).1 = Raise DecodeError
  ∧ uuids (_translate_to_broker env "junk" palm_service).2
    = S (uuids palm_service).
Proof.
  split; [reflexivity|].
  pose proof (translate_to_broker_failures env palm_service "junk" eq_refl)
    as (Hret & Hids & _).
  assert (Hp : ParseFromString (A:=PalmMessage.t) "junk" = None)
    by by vm_compute.
  rewrite Hp in Hret. exact (conj Hret Hids).
Defined.

Lemma binary_round_trip_witness :
  palm binary_service = false
  ∧ ∃ envelope,
      (_translate_to_broker env "raw" binary_service).1 = Return envelope
      ∧ (_translate_from_broker envelope
           (_translate_to_broker env "raw" binary_service).2).1
        = Return "raw".
Proof.
  split; [reflexivity|].
  apply (binary_round_trip env binary_service "raw" eq_refl).
  by vm_compute.
Defined.

(** The client envelope of the example, answered in upper case. *)
Lemma palm_round_trip_witness :
  palm palm_service = true
  ∧ cache palm_service = Some ∅
  ∧ (_translate_from_broker response translated).1
    = Return (SerializeToString
                (PalmMessage.set_payload "HELLO" client_envelope)).
Proof.
  split; [reflexivity|]. split; [reflexivity|].
  assert (Hp : ParseFromString (SerializeToString client_envelope)
               = Some client_envelope) by by vm_compute.
  assert (Hround : ParseFromString
                     (SerializeToString
                        (BrokerMessage.Build (uuid4 env (uuids palm_service))
                           "HELLO"))
                   = Some (BrokerMessage.Build
                             (uuid4 env (uuids palm_service)) "HELLO"))
    by by vm_compute.
  pose proof (palm_round_trip env palm_service
                (SerializeToString client_envelope) client_envelope ∅
                "HELLO" eq_refl eq_refl Hp Hround) as Hthm.
  cbv zeta in Hthm. destruct Hthm as (_ & Hback & _).
  exact (f_equal fst Hback).
Defined.

End TranslationScenario.
